(** * fell: bulk git operations over a fleet of repositories

    A shallow embedding of [src/git.js] (the wrappers around the nodegit
    binding) and of the [sync], [commit] and [branch] command handlers,
    with the properties of the specification that concern them and
    further properties of the code.

    Layout:
    - [Promise]: an [async] function is a state transformer that settles
      with [Resolved v] or [Rejected e];
    - [NodeGit]: the members of the nodegit binding that git.js calls;
    - [Git]: git.js, function by function, over any binding;
    - [Repos], [SyncCmd], [CommitCmd]: the catalog helpers and the handlers;
    - [LibGit2]: a model of a repository on disk (refs, index, working
      tree, history) that implements [NodeGit];
    - [GitRemote], [GitHead], [BranchCmd], [LibGit2Checkout]: the rest of
      git.js, the branch handler, and the model of the members of nodegit
      they add;
    - the theorems. *)

From Stdlib Require Import ZArith.
From stdpp Require Import base strings list gmap pretty.

Set Warnings "-register-all".
Open Scope string_scope.
Open Scope list_scope.

(** ** Promises *)

(** libgit2 error classes that reach JavaScript as a rejection. *)
Inductive GitErrorCode : Type :=
  | GIT_ERROR
  | GIT_ENOTFOUND
  | GIT_EUNBORNBRANCH
  | GIT_ECONFLICT
  | GIT_EMODIFIED
  | GIT_EMERGECONFLICT.

Inductive Error : Type :=
  | NodeGitError (code : GitErrorCode)  (* rejection coming from the binding *)
  | TypeError                           (* a method called on [null] *)
  | ConfigurationError.                 (* the catalog cannot be read *)

Inductive result (A : Type) : Type :=
  | Resolved (a : A)
  | Rejected (e : Error).
Arguments Resolved {A} a.
Arguments Rejected {A} e.

(** A repository is named by its path: git.js hands [repoPath] to
    [NodeGit.Repository.open]. *)
Definition Repo : Type := string.

(** Ghost trace: every function of git.js records that it was entered, and
    with which arguments.  Nothing reads the trace. *)
Inductive GitCall : Type :=
  | call_getCurrentBranch (repoPath : Repo)
  | call_isStatusClean (repoPath : Repo)
  | call_hasBranch (repoPath : Repo) (branchName : string)
  | call_deleteBranch (repoPath : Repo) (branch : string)
  | call_sync (repoPath : Repo)
  | call_commitAll (repoPath : Repo) (message : string)
  | call_isAheadOfMaster (repoPath : Repo).

(** What a command acts on: the world behind the binding (disks and
    remotes), the lines printed so far, and the ghost trace. *)
Record State (W : Type) : Type := mkState {
  world : W;
  console : list string;
  calls : list GitCall
}.
Arguments mkState {W} world console calls.
Arguments world {W} s.
Arguments console {W} s.
Arguments calls {W} s.

(** A call into the binding only sees the world. *)
Definition native (W A : Type) : Type := W -> result A * W.

Definition Promise (W A : Type) : Type := State W -> result A * State W.

Section PromiseOps.
Context {W : Type}.

Definition ret {A} (a : A) : Promise W A := fun s => (Resolved a, s).

Definition throw {A} (e : Error) : Promise W A := fun s => (Rejected e, s).

Definition bind {A B} (m : Promise W A) (k : A -> Promise W B) : Promise W B :=
  fun s =>
    match m s with
    | (Resolved a, s') => k a s'
    | (Rejected e, s') => (Rejected e, s')
    end.

(** [try { m } catch (e) { h e }] *)
Definition try_catch {A} (m : Promise W A) (h : Error -> Promise W A) : Promise W A :=
  fun s =>
    match m s with
    | (Resolved a, s') => (Resolved a, s')
    | (Rejected e, s') => h e s'
    end.

(** Awaiting a call of the binding. *)
Definition await {A} (f : native W A) : Promise W A :=
  fun s =>
    let '(r, w) := f (world s) in
    (r, mkState w (console s) (calls s)).

(** Reading the world without changing it. *)
Definition peek {A} (f : W -> A) : Promise W A :=
  fun s => (Resolved (f (world s)), s).

Definition enter (c : GitCall) : Promise W unit :=
  fun s => (Resolved tt, mkState (world s) (console s) (calls s ++ [c])).

(** [green(line)] of the cli colour helper: one line on the console. *)
Definition green (line : string) : Promise W unit :=
  fun s => (Resolved tt, mkState (world s) (console s ++ [line]) (calls s)).

(** *** [Promise.all]

    [xs.map(f)] starts every task before anything is awaited, and a
    started task is never cancelled.  The tasks of one batch act on
    different repositories, so running them one after the other in input
    order reaches the same world as any interleaving; the state returned
    is the one reached when every task has settled. *)
Fixpoint dispatch {A} (tasks : list (Promise W A)) (s : State W)
  : list (result A) * State W :=
  match tasks with
  | [] => ([], s)
  | t :: tasks' =>
      let '(r, s1) := t s in
      let '(rs, s2) := dispatch tasks' s1 in
      (r :: rs, s2)
  end.

(** [settle i] is the time at which the [i]-th task settles.  The
    rejection [Promise.all] reports is the earliest one (the lower index
    on a tie). *)
Fixpoint first_rejection {A} (settle : nat -> nat) (i : nat) (rs : list (result A))
  : option (nat * Error) :=
  match rs with
  | [] => None
  | Resolved _ :: rs' => first_rejection settle (S i) rs'
  | Rejected e :: rs' =>
      match first_rejection settle (S i) rs' with
      | Some (j, e') =>
          if (settle j <? settle i)%nat then Some (j, e') else Some (i, e)
      | None => Some (i, e)
      end
  end.

Definition fulfilled {A} (rs : list (result A)) : list A :=
  omap (fun r => match r with Resolved a => Some a | Rejected _ => None end) rs.

Definition Promise_all {A} (settle : nat -> nat) (tasks : list (Promise W A))
  : Promise W (list A) :=
  fun s =>
    let '(rs, s') := dispatch tasks s in
    match first_rejection settle 0 rs with
    | Some (_, e) => (Rejected e, s')
    | None => (Resolved (fulfilled rs), s')
    end.
End PromiseOps.

Declare Scope promise_scope.
Delimit Scope promise_scope with promise.
Notation "x <- m ;; k" := (bind m (fun x => k))
  (at level 100, m at next level, right associativity) : promise_scope.
Notation "m ;; k" := (bind m (fun _ => k))
  (at level 100, right associativity) : promise_scope.
Open Scope promise_scope.

(** ** The nodegit binding *)

Inductive MergePreference : Type :=
  | PREFERENCE_NONE
  | PREFERENCE_NO_FASTFORWARD
  | PREFERENCE_FASTFORWARD_ONLY.

Inductive Cred : Type :=
  | sshKeyFromAgent (userName : string).

Record Callbacks : Type := {
  certificateCheck : unit -> Z;
  credentials : string -> string -> Cred
}.

Record FetchOptions : Type := {
  callbacks : Callbacks
}.

(** The members of nodegit that the embedded functions of git.js call.
    Method calls that cannot fail and do not touch the disk are plain
    functions. *)
Record NodeGit : Type := {
  World : Type;
  RepositoryT : Type;
  ReferenceT : Type;
  CommitT : Type;
  IndexT : Type;
  OidT : Type;
  SignatureT : Type;
  StatusFileT : Type;
  Oid_eq_dec : EqDecision OidT;
  (* NodeGit.Repository.open(path) *)
  Repository_open : Repo -> native World RepositoryT;
  (* repo.getCurrentBranch() *)
  repo_getCurrentBranch : RepositoryT -> native World ReferenceT;
  (* ref.shorthand() *)
  ref_shorthand : ReferenceT -> string;
  (* repo.getStatus() *)
  repo_getStatus : RepositoryT -> native World (list StatusFileT);
  (* repo.getBranch(name) *)
  repo_getBranch : RepositoryT -> string -> native World ReferenceT;
  (* NodeGit.Branch.delete(ref) *)
  Branch_delete : ReferenceT -> native World Z;
  (* repo.fetchAll(fetchOptions) *)
  repo_fetchAll : RepositoryT -> FetchOptions -> native World unit;
  (* repo.mergeBranches(to, from, signature, mergePreference) *)
  repo_mergeBranches :
    RepositoryT -> string -> string -> SignatureT -> MergePreference ->
    native World OidT;
  (* repo.defaultSignature() *)
  repo_defaultSignature : RepositoryT -> World -> SignatureT;
  (* repo.refreshIndex() *)
  repo_refreshIndex : RepositoryT -> native World IndexT;
  (* index.addAll(), index.write(), index.writeTree() *)
  index_addAll : IndexT -> native World unit;
  index_write : IndexT -> native World unit;
  index_writeTree : IndexT -> native World OidT;
  (* NodeGit.Reference.nameToId(repo, name) *)
  Reference_nameToId : RepositoryT -> string -> native World OidT;
  (* repo.getCommit(oid) *)
  repo_getCommit : RepositoryT -> OidT -> native World CommitT;
  (* repo.createCommit(updateRef, author, committer, message, tree, parents) *)
  repo_createCommit :
    RepositoryT -> string -> SignatureT -> SignatureT -> string -> OidT ->
    list CommitT -> native World OidT;
  (* repo.getHeadCommit(): may resolve with null *)
  repo_getHeadCommit : RepositoryT -> native World (option CommitT);
  (* repo.getMasterCommit() *)
  repo_getMasterCommit : RepositoryT -> native World CommitT;
  (* commit.sha() *)
  commit_sha : CommitT -> OidT;
  (* the commits handed to the 'end' listener of commit.history() once the
     walk is started; a walk that emits 'error' instead is not modelled *)
  commit_history : CommitT -> World -> list CommitT
}.

#[global] Existing Instance Oid_eq_dec.

(** ** git.js *)

Module Git.
Section WithBinding.
Variable NG : NodeGit.

Local Abbreviation W := (World NG).

Definition getRepo (repoPath : Repo) : Promise W (RepositoryT NG) :=
  await (Repository_open NG repoPath).

Definition getCurrentBranch (repoPath : Repo) : Promise W string :=
  enter (call_getCurrentBranch repoPath) ;;
  repo <- getRepo repoPath ;;
  ref <- await (repo_getCurrentBranch NG repo) ;;
  ret (ref_shorthand NG ref).

Definition isStatusClean (repoPath : Repo) : Promise W bool :=
  enter (call_isStatusClean repoPath) ;;
  repo <- getRepo repoPath ;;
  statusFiles <- await (repo_getStatus NG repo) ;;
  ret (length statusFiles =? 0)%nat.

Definition hasBranch (repoPath : Repo) (branchName : string) : Promise W bool :=
  enter (call_hasBranch repoPath branchName) ;;
  repo <- getRepo repoPath ;;
  try_catch
    (await (repo_getBranch NG repo branchName) ;;
     ret true)
    (fun e => ret false).

Definition deleteBranch (repoPath : Repo) (branch : string) : Promise W bool :=
  enter (call_deleteBranch repoPath branch) ;;
  repo <- getRepo repoPath ;;
  ref <- await (repo_getBranch NG repo branch) ;;
  res <- await (Branch_delete NG ref) ;;
  ret (res =? 0)%Z.

Definition remoteCallbacks : FetchOptions :=
  {| callbacks :=
       {| certificateCheck := fun _ => 0%Z;
          credentials := fun url userName => sshKeyFromAgent userName |} |}.

Definition sync (repoPath : Repo) : Promise W unit :=
  enter (call_sync repoPath) ;;
  branch <- getCurrentBranch repoPath ;;
  repo <- getRepo repoPath ;;
  await (repo_fetchAll NG repo {| callbacks := callbacks remoteCallbacks |}) ;;
  signature <- peek (repo_defaultSignature NG repo) ;;
  await (repo_mergeBranches NG repo branch "origin/master" signature
           PREFERENCE_FASTFORWARD_ONLY) ;;
  ret tt.

(* like `git add . && git commit -am <message>` *)
Definition commitAll (repoPath : Repo) (message : string) : Promise W (OidT NG) :=
  enter (call_commitAll repoPath message) ;;
  repo <- getRepo repoPath ;;
  signature <- peek (repo_defaultSignature NG repo) ;;
  index <- await (repo_refreshIndex NG repo) ;;
  await (index_addAll NG index) ;;
  await (index_write NG index) ;;
  oid <- await (index_writeTree NG index) ;;
  head <- await (Reference_nameToId NG repo "HEAD") ;;
  parent <- await (repo_getCommit NG repo head) ;;
  await (repo_createCommit NG repo "HEAD" signature signature message oid [parent]).

(** [c.sha()] where [c] may be [null]. *)
Definition sha_of (c : option (CommitT NG)) : Promise W (OidT NG) :=
  match c with
  | Some c => ret (commit_sha NG c)
  | None => throw TypeError
  end.

Definition isAheadOfMaster (repoPath : Repo) : Promise W bool :=
  enter (call_isAheadOfMaster repoPath) ;;
  repo <- getRepo repoPath ;;
  headCommit <- await (repo_getHeadCommit NG repo) ;;
  masterCommit <- await (repo_getMasterCommit NG repo) ;;
  headSha <- sha_of headCommit ;;
  if bool_decide (headSha = commit_sha NG masterCommit) then ret false
  else
    priorShas <- peek (fun w => map (commit_sha NG) (commit_history NG masterCommit w)) ;;
    ret (bool_decide (commit_sha NG masterCommit ∈ priorShas)).
End WithBinding.
End Git.

(** ** repos.js (catalog and classifier) *)

Module Repos.
(** Modelled from the spec: repos.js and type.js are not among the sources.
    Section 3 ([RepositoryRef]): an entry of the catalog is a path and an
    optional logical name. *)
Record RepositoryRef : Type := {
  ref_path : Repo;
  ref_name : option string
}.

(** What [getStatusGroups] resolves with; the handlers read its two fields. *)
Record StatusGroups : Type := {
  clean : list Repo;
  dirty : list Repo
}.

Section WithBinding.
Variable NG : NodeGit.
(** The configured repositories; [None] when the configuration cannot be
    read. *)
Variable catalog : option (list RepositoryRef).
Variable settle : nat -> nat.

Local Abbreviation W := (World NG).

(** Modelled from the spec: section 4.1, exclusion is by logical name. *)
Definition excluded (exclude : list string) (r : RepositoryRef) : bool :=
  match ref_name r with
  | Some n => bool_decide (n ∈ exclude)
  | None => false
  end.

(** Modelled from the spec: section 4.1, the scope is a prefix of the path
    or of the name. *)
Definition in_scope (scope : option string) (r : RepositoryRef) : bool :=
  match scope with
  | None => true
  | Some pre =>
      String.prefix pre (ref_path r)
      || match ref_name r with
         | Some n => String.prefix pre n
         | None => false
         end
  end.

(** Modelled from the spec: repos.js is not among the sources.  Section 4.1
    ([listRepositories]): load the configured repositories, drop those
    whose logical name is excluded, keep those that match the scope
    prefix when one is given; [ConfigurationError] when the configuration
    cannot be read. *)
Definition getRepos (exclude : list string) (scope : option string)
  : Promise W (list Repo) :=
  match catalog with
  | None => throw ConfigurationError
  | Some refs =>
      ret (map ref_path
             (filter (fun r => negb (excluded exclude r) && in_scope scope r) refs))
  end.

(** Modelled from the spec: section 3 ([StatusGroups]), the repositories of
    [repos] whose status came back as [want], in input order. *)
Fixpoint select (want : bool) (repos : list Repo) (statuses : list bool) : list Repo :=
  match repos, statuses with
  | r :: repos', b :: statuses' =>
      if Bool.eqb b want then r :: select want repos' statuses'
      else select want repos' statuses'
  | _, _ => []
  end.

(** Modelled from the spec: repos.js is not among the sources.  Section 4.3
    ([classifyStatus]): invoke the status operation on each repository and
    partition the input into the clean and the dirty ones. *)
Definition getStatusGroups (repos : list Repo) : Promise W StatusGroups :=
  statuses <- Promise_all settle (map (Git.isStatusClean NG) repos) ;;
  ret {| clean := select true repos statuses;
         dirty := select false repos statuses |}.
End WithBinding.
End Repos.

(** ** cmd/sync.js *)

Module SyncCmd.
Record Argv : Type := {
  exclude : list string;
  scope : option string
}.

Section WithBinding.
Variable NG : NodeGit.
(** The two imports from repos.js. *)
Variable getRepos : list string -> option string -> Promise (World NG) (list Repo).
Variable getStatusGroups : list Repo -> Promise (World NG) Repos.StatusGroups.
Variable settle : nat -> nat.

Definition summary (n : nat) : string :=
  "👍  " +:+ pretty n +:+ " repos synced.".

Definition handler (argv : Argv) : Promise (World NG) unit :=
  repos <- getRepos (exclude argv) (scope argv) ;;
  groups <- getStatusGroups repos ;;
  let clean := Repos.clean groups in
  Promise_all settle (map (Git.sync NG) clean) ;;
  green (summary (length clean)).
End WithBinding.
End SyncCmd.

(** ** cmd/commit.js *)

Module CommitCmd.
Record Argv : Type := {
  exclude : list string;
  scope : option string;
  message : string
}.

Section WithBinding.
Variable NG : NodeGit.
(** The two imports from repos.js. *)
Variable getRepos : list string -> option string -> Promise (World NG) (list Repo).
Variable getStatusGroups : list Repo -> Promise (World NG) Repos.StatusGroups.
Variable settle : nat -> nat.

Definition dquote : string := String (Ascii.ascii_of_nat 34) EmptyString.

Definition summary (n : nat) (message : string) : string :=
  pretty n +:+ " repos added new commit " +:+ dquote +:+ message +:+ dquote.

Definition handler (argv : Argv) : Promise (World NG) unit :=
  repos <- getRepos (exclude argv) (scope argv) ;;
  groups <- getStatusGroups repos ;;
  let dirty := Repos.dirty groups in
  Promise_all settle (map (fun repo => Git.commitAll NG repo (message argv)) dirty) ;;
  green (summary (length dirty) (message argv)).
End WithBinding.
End CommitCmd.

(** ** A model of the repositories behind the binding

    nodegit is a dependency, not a source of this repository.  The model
    follows its JavaScript layer (lib/repository.js, lib/commit.js) and the
    libgit2 functions behind it, for the calls git.js makes.  It keeps what
    git.js can observe of a repository: the references, the index, the
    working tree and the commits.  A commit carries its parents, so the
    history of a commit is a structural recursion; an object id is modelled
    by the object it names (no two objects share an id).  Signatures carry
    no time stamp, ignored files are left out of the working tree, and
    reference names are not normalised. *)

Module LibGit2.
(** A tree maps a path to the content of the file. *)
Abbreviation Tree := (gmap string string).

Record Signature : Type := {
  sig_name : string;
  sig_email : string
}.

Inductive Commit : Type := mkCommit {
  c_tree : Tree;
  c_message : string;
  c_author : Signature;
  c_committer : Signature;
  c_parents : list Commit
}.

Inductive Oid : Type :=
  | CommitId (c : Commit)
  | TreeId (t : Tree).

Inductive RefTarget : Type :=
  | Direct (c : Commit)
  | Symbolic (name : string).

(** What a remote serves: its branches, when it can be reached and
    accepts the credentials. *)
Record Remote : Type := {
  remote_online : bool;
  remote_heads : gmap string Commit
}.

Record Repository : Type := mkRepository {
  refs : gmap string RefTarget;      (* by full name, HEAD included *)
  index : Tree;
  workdir : Tree;
  remotes : list (string * Remote);  (* in configuration order *)
  user : option Signature            (* user.name and user.email *)
}.

(** The disks: the repository found at each path. *)
Abbreviation Disk := (gmap string Repository).

Record Reference : Type := {
  ref_owner : Repo;
  ref_name : string;
  ref_commit : Commit
}.

Record StatusFile : Type := {
  status_path : string;
  status_staged : bool;    (* HEAD and index differ *)
  status_unstaged : bool   (* index and working tree differ *)
}.

#[global] Instance Signature_eq_dec : EqDecision Signature.
Proof. solve_decision. Defined.

Fixpoint Commit_eq_dec (a b : Commit) {struct a} : Decision (a = b).
Proof.
  refine
    match a, b with
    | mkCommit t m au co ps, mkCommit t' m' au' co' ps' =>
        cast_if_and5 (decide (t = t')) (decide (m = m')) (decide (au = au'))
          (decide (co = co'))
          ((fix all2 (xs ys : list Commit) {struct xs} : Decision (xs = ys) :=
              match xs, ys with
              | [], [] => left _
              | x :: xs', y :: ys' => cast_if_and (Commit_eq_dec x y) (all2 xs' ys')
              | _, _ => right _
              end) ps ps')
    end; clear Commit_eq_dec; try clear all2; congruence.
Defined.

#[global] Instance Commit_eq : EqDecision Commit := Commit_eq_dec.

#[global] Instance Oid_eq : EqDecision Oid.
Proof. solve_decision. Defined.

(** Size of a history, to reason on commits by induction. *)
Fixpoint Commit_size (c : Commit) : nat :=
  S (list_sum (map Commit_size (c_parents c))).

Definition set_refs (rs : gmap string RefTarget) (r : Repository) : Repository :=
  mkRepository rs (index r) (workdir r) (remotes r) (user r).

Definition set_index (i : Tree) (r : Repository) : Repository :=
  mkRepository (refs r) i (workdir r) (remotes r) (user r).

Definition set_workdir (w : Tree) (r : Repository) : Repository :=
  mkRepository (refs r) (index r) w (remotes r) (user r).

(** *** References *)

Definition MAX_NESTING_LEVEL : nat := 10.

Definition not_found {A} : result A := Rejected (NodeGitError GIT_ENOTFOUND).

(** [git_reference_lookup_resolved]: follow symbolic references down to a
    direct one. *)
Fixpoint lookup_resolved (rs : gmap string RefTarget) (nesting : nat) (name : string)
  : result (string * Commit) :=
  match rs !! name with
  | None => not_found
  | Some (Direct c) => Resolved (name, c)
  | Some (Symbolic target) =>
      match nesting with
      | O => Rejected (NodeGitError GIT_ERROR)
      | S n => lookup_resolved rs n target
      end
  end.

(** The names [git_reference_dwim] tries for a shorthand, in order. *)
Definition dwim_formats (name : string) : list string :=
  match name with
  | EmptyString => ["HEAD"]
  | _ =>
      [name; "refs/" +:+ name; "refs/tags/" +:+ name; "refs/heads/" +:+ name;
       "refs/remotes/" +:+ name; "refs/remotes/" +:+ name +:+ "/HEAD"]
  end.

(** The first candidate that resolves; a failure other than absence stops
    the search. *)
Fixpoint dwim_first (rs : gmap string RefTarget) (candidates : list string)
  : result (string * Commit) :=
  match candidates with
  | [] => not_found
  | n :: rest =>
      match lookup_resolved rs MAX_NESTING_LEVEL n with
      | Resolved x => Resolved x
      | Rejected (NodeGitError GIT_ENOTFOUND) => dwim_first rs rest
      | Rejected e => Rejected e
      end
  end.

Definition dwim (r : Repository) (name : string) : result (string * Commit) :=
  dwim_first (refs r) (dwim_formats name).

(** [git_repository_head]: the branch HEAD is on, or HEAD itself when it
    is detached. *)
Definition repository_head (r : Repository) : result (string * Commit) :=
  match refs r !! "HEAD" with
  | None => not_found
  | Some (Direct c) => Resolved ("HEAD", c)
  | Some (Symbolic target) =>
      match lookup_resolved (refs r) MAX_NESTING_LEVEL target with
      | Rejected (NodeGitError GIT_ENOTFOUND) => Rejected (NodeGitError GIT_EUNBORNBRANCH)
      | x => x
      end
  end.

Fixpoint strip_prefix (pre s : string) : option string :=
  match pre with
  | EmptyString => Some s
  | String a pre' =>
      match s with
      | EmptyString => None
      | String b s' => if Ascii.eqb a b then strip_prefix pre' s' else None
      end
  end.

(** [git_reference_shorthand] *)
Definition shorthand (name : string) : string :=
  match strip_prefix "refs/heads/" name with
  | Some short => short
  | None =>
      match strip_prefix "refs/tags/" name with
      | Some short => short
      | None =>
          match strip_prefix "refs/remotes/" name with
          | Some short => short
          | None =>
              match strip_prefix "refs/" name with
              | Some short => short
              | None => name
              end
          end
      end
  end.

Definition is_branch (name : string) : bool := String.prefix "refs/heads/" name.

Definition is_remote (name : string) : bool := String.prefix "refs/remotes/" name.

(** [git_branch_is_head] *)
Definition is_head (r : Repository) (name : string) : bool :=
  is_branch name
  && match repository_head r with
     | Resolved (h, _) => bool_decide (h = name)
     | Rejected _ => false
     end.

(** The tree of the commit HEAD resolves to; empty on an unborn branch. *)
Definition head_tree (r : Repository) : Tree :=
  match repository_head r with
  | Resolved (_, c) => c_tree c
  | Rejected _ => ∅
  end.

(** *** History *)

(** The commits a revision walk started at [c] visits: [c] itself, then
    its ancestors.  (The walk visits a commit once; here a commit that
    two paths reach is listed once per path.) *)
Fixpoint history (c : Commit) : list Commit :=
  c :: flat_map history (c_parents c).

Definition common_ancestors (a b : Commit) : list Commit :=
  filter (fun c => c ∈ history b) (history a).

(** [git_merge_base]: a common ancestor that no other common ancestor
    descends from; ENOTFOUND when the histories are unrelated. *)
Definition Merge_base (a b : Commit) : result Commit :=
  let common := common_ancestors a b in
  match filter (fun c => Forall (fun c' => c' = c \/ c ∉ history c') common) common with
  | base :: _ => Resolved base
  | [] => not_found
  end.

(** *** Trees *)

(** Path by path over three trees. *)
Definition zip3 {A} (f : option string -> option string -> option string -> option A)
    (a b c : Tree) : gmap string A :=
  merge
    (fun ab z =>
       match ab with
       | Some (x, y) => f x y z
       | None => f None None z
       end)
    (merge
       (fun x y =>
          match x, y with
          | None, None => None
          | _, _ => Some (x, y)
          end) a b)
    c.

Definition status_entry (h i w : option string) : option (bool * bool) :=
  if decide (h = i /\ i = w) then None
  else Some (bool_decide (h <> i), bool_decide (i <> w)).

(** A path conflicts with a checkout when the checkout changes it and the
    local file is neither the old nor the new version.  (libgit2 also
    counts an untracked file that already has the new content; the
    theorems on checkouts take a clean tree or allow the refusal.) *)
Definition checkout_conflict (base target loc : option string) : option unit :=
  if decide (base <> target /\ loc <> base /\ loc <> target) then Some tt else None.

(** SAFE | RECREATE_MISSING: take the new version of what the checkout
    changes, keep local files otherwise, restore missing ones. *)
Definition checkout_entry (base target loc : option string) : option string :=
  if decide (base = target) then
    match loc with
    | None => target
    | Some _ => loc
    end
  else target.

Definition merge_conflict (base ours theirs : option string) : option unit :=
  if decide (ours <> base /\ theirs <> base /\ ours <> theirs) then Some tt else None.

Definition merge_entry (base ours theirs : option string) : option string :=
  if decide (ours = base) then theirs else ours.

(** A path is staged when the index differs from HEAD there, and changed
    in the working tree (modified, deleted or untracked) when the working
    tree differs from the index there. *)
Definition staged (r : Repository) (path : string) : Prop :=
  head_tree r !! path <> index r !! path.

Definition unstaged (r : Repository) (path : string) : Prop :=
  index r !! path <> workdir r !! path.

Definition pending (r : Repository) (path : string) : Prop :=
  staged r path \/ unstaged r path.

(** *** The calls of the binding

    A repository object is a handle on the repository at its path, an
    index object a handle on the index of its repository. *)

Definition read_repo {A} (h : Repo) (f : Repository -> result A) : native Disk A :=
  fun d =>
    match d !! h with
    | Some r => (f r, d)
    | None => (Rejected (NodeGitError GIT_ERROR), d)
    end.

Definition update_repo {A} (h : Repo) (f : Repository -> result A * Repository)
  : native Disk A :=
  fun d =>
    match d !! h with
    | Some r => let '(x, r') := f r in (x, <[h := r']> d)
    | None => (Rejected (NodeGitError GIT_ERROR), d)
    end.

Definition repository_open (path : Repo) : native Disk Repo :=
  fun d =>
    match d !! path with
    | Some _ => (Resolved path, d)
    | None => (not_found, d)
    end.

Definition mkReference (h : Repo) (x : result (string * Commit)) : result Reference :=
  match x with
  | Resolved (n, c) => Resolved {| ref_owner := h; ref_name := n; ref_commit := c |}
  | Rejected e => Rejected e
  end.

Definition getCurrentBranch (h : Repo) : native Disk Reference :=
  read_repo h (fun r => mkReference h (repository_head r)).

Definition getBranch (h : Repo) (name : string) : native Disk Reference :=
  read_repo h (fun r => mkReference h (dwim r name)).

(** The paths on which HEAD, the index and the working tree do not all
    agree (untracked files included). *)
Definition status_files (r : Repository) : list StatusFile :=
  map (fun '(p, (in_index, in_workdir)) =>
         {| status_path := p; status_staged := in_index; status_unstaged := in_workdir |})
      (map_to_list (zip3 status_entry (head_tree r) (index r) (workdir r))).

Definition getStatus (h : Repo) : native Disk (list StatusFile) :=
  read_repo h (fun r => Resolved (status_files r)).

(** [NodeGit.Branch.delete] over [git_branch_delete], which refuses what is
    not a branch and the branch HEAD is on.  The binding resolves with the
    result code: 0 when the reference is deleted, -1 when libgit2
    refuses. *)
Definition branch_delete (ref : Reference) : native Disk Z :=
  update_repo (ref_owner ref) (fun r =>
    if negb (is_branch (ref_name ref) || is_remote (ref_name ref))
    then (Resolved (-1)%Z, r)
    else if is_head r (ref_name ref)
    then (Resolved (-1)%Z, r)
    else (Resolved 0%Z, set_refs (delete (ref_name ref) (refs r)) r)).

Definition tracking_refs (remote : string) (heads : gmap string Commit)
    (rs : gmap string RefTarget) : gmap string RefTarget :=
  map_fold
    (fun branch c acc => <["refs/remotes/" +:+ remote +:+ "/" +:+ branch := Direct c]> acc)
    rs heads.

(** The remotes are fetched one after the other; the first that fails
    stops the fetch. *)
Fixpoint fetch_each (rems : list (string * Remote)) (r : Repository)
  : result unit * Repository :=
  match rems with
  | [] => (Resolved tt, r)
  | (name, remote) :: rest =>
      if remote_online remote
      then fetch_each rest (set_refs (tracking_refs name (remote_heads remote) (refs r)) r)
      else (Rejected (NodeGitError GIT_ERROR), r)
  end.

(** [opts] carries the callbacks that authenticate the transport; whether
    a remote accepts them is part of [remote_online]. *)
Definition fetchAll (h : Repo) (opts : FetchOptions) : native Disk unit :=
  update_repo h (fun r => fetch_each (remotes r) r).

Definition defaultSignature (h : Repo) (d : Disk) : Signature :=
  match d !! h with
  | Some {| user := Some s |} => s
  | _ => {| sig_name := "unknown"; sig_email := "unknown@example.com" |}
  end.

(** The direct reference that an update of [name] writes, and its tip
    when it exists. *)
Fixpoint update_terminal (rs : gmap string RefTarget) (nesting : nat) (name : string)
  : result (string * option Commit) :=
  match rs !! name with
  | None => Resolved (name, None)
  | Some (Direct c) => Resolved (name, Some c)
  | Some (Symbolic target) =>
      match nesting with
      | O => Rejected (NodeGitError GIT_ERROR)
      | S n => update_terminal rs n target
      end
  end.

(** [git_commit_create]: write the commit and move [update_ref] to it.
    The tip of [update_ref], when there is one, must be the first parent.
    Nothing compares the tree with the parent's. *)
Definition createCommit (update_ref : string) (author committer : Signature)
    (message : string) (tree : Oid) (parents : list Commit) (r : Repository)
  : result Oid * Repository :=
  match tree with
  | CommitId _ => (not_found, r)
  | TreeId t =>
      match update_terminal (refs r) MAX_NESTING_LEVEL update_ref with
      | Rejected e => (Rejected e, r)
      | Resolved (name, tip) =>
          if bool_decide (tip = None \/ tip = head parents)
          then
            let c := mkCommit t message author committer parents in
            (Resolved (CommitId c), set_refs (<[name := Direct c]> (refs r)) r)
          else (Rejected (NodeGitError GIT_EMODIFIED), r)
      end
  end.

(** [NodeGit.Checkout.tree] with the strategy mergeBranches passes; the
    baseline is the tree of HEAD. *)
Definition Checkout_tree (target : Tree) (r : Repository) : result unit * Repository :=
  let base := head_tree r in
  if bool_decide (zip3 checkout_conflict base target (workdir r) = ∅
                  /\ zip3 checkout_conflict base target (index r) = ∅)
  then (Resolved tt,
        set_workdir (zip3 checkout_entry base target (workdir r))
          (set_index (zip3 checkout_entry base target (index r)) r))
  else (Rejected (NodeGitError GIT_ECONFLICT), r).

Definition allows_fastforward (pref : MergePreference) : bool :=
  match pref with
  | PREFERENCE_NO_FASTFORWARD => false
  | _ => true
  end.

Definition fastforward_only (pref : MergePreference) : bool :=
  match pref with
  | PREFERENCE_FASTFORWARD_ONLY => true
  | _ => false
  end.

(** The branch of [Repository.prototype.mergeBranches] that fast-forwards
    [to_name] to [from_commit]. *)
Definition fast_forward (to_name : string) (from_commit : Commit) (r : Repository)
  : result Oid * Repository :=
  match (if is_head r to_name then Checkout_tree (c_tree from_commit) r
         else (Resolved tt, r)) with
  | (Rejected e, r') => (Rejected e, r')
  | (Resolved _, r') =>
      (Resolved (CommitId from_commit),
       set_refs (<[to_name := Direct from_commit]> (refs r')) r')
  end.

(** The branch of [Repository.prototype.mergeBranches] that writes a
    merge commit with the two tips as parents. *)
Definition merge_commit (to_name from_name : string) (base to_commit from_commit : Commit)
    (signature : Signature) (r : Repository) : result Oid * Repository :=
  match lookup_resolved (refs r) MAX_NESTING_LEVEL "HEAD" with
  | Rejected e => (Rejected e, r)
  | Resolved (head_name, _) =>
      let updateHead := bool_decide (head_name = to_name) in
      let trees := (c_tree base, c_tree to_commit, c_tree from_commit) in
      if bool_decide (zip3 merge_conflict trees.1.1 trees.1.2 trees.2 = ∅)
      then
        let message :=
          "Merged " +:+ shorthand from_name +:+ " into " +:+ shorthand to_name in
        let tree := zip3 merge_entry trees.1.1 trees.1.2 trees.2 in
        match createCommit to_name signature signature message (TreeId tree)
                [to_commit; from_commit] r with
        | (Rejected e, r') => (Rejected e, r')
        | (Resolved oid, r') =>
            if updateHead
            then
              match Checkout_tree tree r' with
              | (Rejected e, r'') => (Rejected e, r'')
              | (Resolved _, r'') => (Resolved oid, r'')
              end
            else (Resolved oid, r')
        end
      else (Rejected (NodeGitError GIT_EMERGECONFLICT), r)
  end.

(** [Repository.prototype.mergeBranches]: nothing to do when [from] is
    already in the history of [to]; a fast-forward when [to] is in the
    history of [from]; otherwise a merge commit, unless the preference is
    FASTFORWARD_ONLY, in which case the call resolves with the tip of
    [to] and changes nothing. *)
Definition merge_branches (to from : string) (signature : Signature)
    (pref : MergePreference) (r : Repository) : result Oid * Repository :=
  match dwim r to with
  | Rejected e => (Rejected e, r)
  | Resolved (to_name, to_commit) =>
      match dwim r from with
      | Rejected e => (Rejected e, r)
      | Resolved (from_name, from_commit) =>
          match Merge_base to_commit from_commit with
          | Rejected e => (Rejected e, r)
          | Resolved base =>
              if bool_decide (base = from_commit)
              then (Resolved (CommitId to_commit), r)
              else if bool_decide (base = to_commit) && allows_fastforward pref
              then fast_forward to_name from_commit r
              else if negb (fastforward_only pref)
              then merge_commit to_name from_name base to_commit from_commit signature r
              else (Resolved (CommitId to_commit), r)
          end
      end
  end.

Definition mergeBranches (h : Repo) (to from : string) (signature : Signature)
    (pref : MergePreference) : native Disk Oid :=
  update_repo h (merge_branches to from signature pref).

Definition refreshIndex (h : Repo) : native Disk Repo :=
  read_repo h (fun _ => Resolved h).

(** [index.addAll()]: the index takes every file of the working tree and
    drops the entries whose file is gone. *)
Definition addAll (h : Repo) : native Disk unit :=
  update_repo h (fun r => (Resolved tt, set_index (workdir r) r)).

Definition write (h : Repo) : native Disk unit :=
  read_repo h (fun _ => Resolved tt).

Definition writeTree (h : Repo) : native Disk Oid :=
  read_repo h (fun r => Resolved (TreeId (index r))).

Definition nameToId (h : Repo) (name : string) : native Disk Oid :=
  read_repo h (fun r =>
    match lookup_resolved (refs r) MAX_NESTING_LEVEL name with
    | Resolved (_, c) => Resolved (CommitId c)
    | Rejected e => Rejected e
    end).

Definition getCommit (h : Repo) (oid : Oid) : native Disk Commit :=
  read_repo h (fun _ =>
    match oid with
    | CommitId c => Resolved c
    | TreeId _ => not_found
    end).

(** [Repository.prototype.getHeadCommit] catches the failure of the
    lookup and resolves with null. *)
Definition getHeadCommit (h : Repo) : native Disk (option Commit) :=
  read_repo h (fun r =>
    match lookup_resolved (refs r) MAX_NESTING_LEVEL "HEAD" with
    | Resolved (_, c) => Resolved (Some c)
    | Rejected _ => Resolved None
    end).

(** [Repository.prototype.getMasterCommit]: the commit of branch "master". *)
Definition getMasterCommit (h : Repo) : native Disk Commit :=
  read_repo h (fun r =>
    match dwim r "master" with
    | Resolved (_, c) => Resolved c
    | Rejected e => Rejected e
    end).

Definition binding : NodeGit := {|
  World := Disk;
  RepositoryT := Repo;
  ReferenceT := Reference;
  CommitT := Commit;
  IndexT := Repo;
  OidT := Oid;
  SignatureT := Signature;
  StatusFileT := StatusFile;
  Oid_eq_dec := Oid_eq;
  Repository_open := repository_open;
  repo_getCurrentBranch := getCurrentBranch;
  ref_shorthand := fun ref => shorthand (ref_name ref);
  repo_getStatus := getStatus;
  repo_getBranch := getBranch;
  Branch_delete := branch_delete;
  repo_fetchAll := fetchAll;
  repo_mergeBranches := mergeBranches;
  repo_defaultSignature := defaultSignature;
  repo_refreshIndex := refreshIndex;
  index_addAll := addAll;
  index_write := write;
  index_writeTree := writeTree;
  Reference_nameToId := nameToId;
  repo_getCommit := getCommit;
  repo_createCommit := fun h update_ref author committer message tree parents =>
    update_repo h (createCommit update_ref author committer message tree parents);
  repo_getHeadCommit := getHeadCommit;
  repo_getMasterCommit := getMasterCommit;
  commit_sha := CommitId;
  commit_history := fun c _ => history c
|}.
End LibGit2.

(** ** Reading the ghost trace *)

(** The repositories [git.sync] was entered for, in call order. *)
Definition synced (cs : list GitCall) : list Repo :=
  omap (fun c => match c with call_sync p => Some p | _ => None end) cs.

(** The repositories and messages [git.commitAll] was entered for. *)
Definition committed (cs : list GitCall) : list (Repo * string) :=
  omap (fun c => match c with call_commitAll p m => Some (p, m) | _ => None end) cs.

(** Whatever its outcome, [m] records exactly the calls [cs] and prints
    nothing. *)
Definition emits {W A} (m : Promise W A) (cs : list GitCall) : Prop :=
  forall s, calls (m s).2 = calls s ++ cs /\ console (m s).2 = console s.

(** The calls a task of each batch records. *)
Definition sync_calls (p : Repo) : list GitCall :=
  [call_sync p; call_getCurrentBranch p].

Definition commitAll_calls (message : string) (p : Repo) : list GitCall :=
  [call_commitAll p message].

(** ** A small fleet, to run the functions on *)

Module Fleet.
Import LibGit2.

Definition dev : Signature :=
  {| sig_name := "dev"; sig_email := "dev@example.com" |}.

Definition initial : Commit :=
  mkCommit {[ "README" := "fleet" ]} "initial" dev dev [].

Definition upstream : Commit :=
  mkCommit {[ "README" := "fleet"; "a.txt" := "upstream" ]} "upstream work" dev dev
    [initial].

Definition local : Commit :=
  mkCommit {[ "README" := "fleet"; "b.txt" := "local" ]} "local work" dev dev
    [initial].

Definition origin (online : bool) (heads : gmap string Commit) : list (string * Remote) :=
  [("origin", {| remote_online := online; remote_heads := heads |})].

(** A repository with HEAD on [branch], whose working tree is [files]. *)
Definition checkout (branch : string) (branches : gmap string RefTarget) (files : Tree)
    (staged : Tree) (rems : list (string * Remote)) : Repository :=
  {| refs := <["HEAD" := Symbolic ("refs/heads/" +:+ branch)]> branches;
     index := staged;
     workdir := files;
     remotes := rems;
     user := Some dev |}.

(** Clean, one commit behind origin/master. *)
Definition behind : Repository :=
  checkout "master" {[ "refs/heads/master" := Direct initial ]}
    (c_tree initial) (c_tree initial) (origin true {[ "master" := upstream ]}).

(** As [behind], with an untracked file. *)
Definition edited : Repository :=
  checkout "master" {[ "refs/heads/master" := Direct initial ]}
    (<["notes" := "todo"]> (c_tree initial)) (c_tree initial)
    (origin true {[ "master" := upstream ]}).

(** Clean; master and origin/master each have a commit of their own. *)
Definition diverged : Repository :=
  checkout "master" {[ "refs/heads/master" := Direct local ]}
    (c_tree local) (c_tree local) (origin true {[ "master" := upstream ]}).

(** Clean, but the remote cannot be reached. *)
Definition offline : Repository :=
  checkout "master" {[ "refs/heads/master" := Direct initial ]}
    (c_tree initial) (c_tree initial) (origin false {[ "master" := upstream ]}).

(** No commit yet: HEAD names a branch that does not exist. *)
Definition unborn : Repository :=
  checkout "master" ∅ {[ "README" := "fleet" ]} ∅ (origin true ∅).

(** Clean, on branch topic, which is behind origin/master while
    origin/topic is elsewhere. *)
Definition topic : Repository :=
  checkout "topic" {[ "refs/heads/topic" := Direct initial ]}
    (c_tree initial) (c_tree initial)
    (origin true {[ "master" := upstream; "topic" := local ]}).

(** Clean, on branch feature; feature and master each have a commit of
    their own. *)
Definition feature : Repository :=
  checkout "feature"
    {[ "refs/heads/feature" := Direct local; "refs/heads/master" := Direct upstream ]}
    (c_tree local) (c_tree local) (origin true {[ "master" := upstream ]}).

Definition disk : Disk :=
  {[ "/fleet/behind" := behind; "/fleet/edited" := edited;
     "/fleet/diverged" := diverged; "/fleet/offline" := offline;
     "/fleet/unborn" := unborn; "/fleet/topic" := topic;
     "/fleet/feature" := feature ]}.

Definition entry (name : string) : Repos.RepositoryRef :=
  {| Repos.ref_path := "/fleet/" +:+ name; Repos.ref_name := Some name |}.

Definition catalog : option (list Repos.RepositoryRef) :=
  Some (map entry ["behind"; "edited"; "diverged"; "offline"; "unborn"; "topic"; "feature"]).

Definition start : State Disk := mkState disk [] [].

(** Tasks settle in the order they were started. *)
Definition in_order (i : nat) : nat := i.

(** The two commands, linked with repos.js over the catalog of the fleet. *)
Definition sync_cmd : SyncCmd.Argv -> Promise Disk unit :=
  SyncCmd.handler binding (Repos.getRepos binding catalog)
    (Repos.getStatusGroups binding in_order) in_order.

Definition commit_cmd : CommitCmd.Argv -> Promise Disk unit :=
  CommitCmd.handler binding (Repos.getRepos binding catalog)
    (Repos.getStatusGroups binding in_order) in_order.
End Fleet.

(** ** The rest of git.js

    [push], [getHeadCommitMessage], [checkoutBranch] and
    [checkoutNewBranch] use members of nodegit that the functions above do
    not.  The handlers embedded here never dispatch them in a batch, and
    they record nothing in the ghost trace. *)

(** The members of nodegit that [push] adds. *)
Record NodeGitPush : Type := {
  push_base : NodeGit;
  RemoteT : Type;
  (* repo.getRemote(name) *)
  repo_getRemote : RepositoryT push_base -> string -> native (World push_base) RemoteT;
  (* remote.push(refSpecs, options) *)
  remote_push : RemoteT -> list string -> FetchOptions -> native (World push_base) Z
}.

(** The members of nodegit that [getHeadCommitMessage], [checkoutBranch] and
    [checkoutNewBranch] add. *)
Record NodeGitCheckout : Type := {
  checkout_base : NodeGit;
  (* commit.message() *)
  commit_message : CommitT checkout_base -> string;
  (* repo.checkoutBranch(name); the value it resolves with is dropped by
     git.js and left out *)
  repo_checkoutBranch :
    RepositoryT checkout_base -> string -> native (World checkout_base) unit;
  (* repo.createBranch(name, commit, force); commit may be null *)
  repo_createBranch :
    RepositoryT checkout_base -> string -> option (CommitT checkout_base) -> bool ->
    native (World checkout_base) (ReferenceT checkout_base)
}.

Module GitRemote.
(** The one refspec [push] hands to the remote. *)
Definition refspec (force : bool) (branch : string) : string :=
  (if force then "+" else "") +:+ "refs/heads/" +:+ branch
  +:+ ":refs/heads/" +:+ branch.

Section WithBinding.
Variable NP : NodeGitPush.

(** An argument left out is [None]: [force] then defaults to false and
    [remoteName] to "origin". *)
Definition push (repoPath : Repo) (branch : string) (force : option bool)
    (remoteName : option string) : Promise (World (push_base NP)) unit :=
  let force := default false force in
  let remoteName := default "origin" remoteName in
  repo <- Git.getRepo (push_base NP) repoPath ;;
  remote <- await (repo_getRemote NP repo remoteName) ;;
  await (remote_push NP remote [refspec force branch] Git.remoteCallbacks) ;;
  ret tt.
End WithBinding.
End GitRemote.

Module GitHead.
Section WithBinding.
Variable NC : NodeGitCheckout.

Local Abbreviation NG := (checkout_base NC).

Definition getHeadCommitMessage (repoPath : Repo) : Promise (World NG) string :=
  repo <- Git.getRepo NG repoPath ;;
  headCommit <- await (repo_getHeadCommit NG repo) ;;
  match headCommit with
  | Some c => ret (commit_message NC c)
  | None => throw TypeError
  end.

Definition checkoutBranch (repoPath : Repo) (branchName : string)
  : Promise (World NG) unit :=
  repo <- Git.getRepo NG repoPath ;;
  await (repo_checkoutBranch NC repo branchName).

Definition checkoutNewBranch (repoPath : Repo) (branchName : string)
  : Promise (World NG) unit :=
  repo <- Git.getRepo NG repoPath ;;
  commit <- await (repo_getHeadCommit NG repo) ;;
  await (repo_createBranch NC repo branchName commit false) ;;
  await (repo_checkoutBranch NC repo branchName).
End WithBinding.
End GitHead.

(** ** cmd/branch.ts *)

(** [log(line)] of x-chalk: one line on the console. *)
Definition log {W} (line : string) : Promise W unit :=
  fun s => (Resolved tt, mkState (world s) (console s ++ [line]) (calls s)).

(** [xs.forEach(f)] for a callback that awaits nothing. *)
Fixpoint forEach {W A} (xs : list A) (f : A -> Promise W unit) : Promise W unit :=
  match xs with
  | [] => ret tt
  | x :: xs' => f x ;; forEach xs' f
  end.

(** The colours of chalk the handler uses: each wraps a string. *)
Record Chalk : Type := {
  chalk_green : string -> string;
  chalk_grey : string -> string;
  chalk_yellow : string -> string
}.

Module BranchCmd.
Record Argv : Type := {
  exclude : list string
}.

Section WithImports.
Variable W : Type.
(** The imports from repos.js and helpers.js.  A branch map is a JavaScript
    [Map]: its entries, in insertion order. *)
Variable getRepos : list string -> option string -> Promise W (list Repo).
Variable getBranchMap : list Repo -> Promise W (list (string * list Repo)).
Variable relPath : Repo -> string.
Variable chalk : Chalk.

Definition header (branch : string) (branchRepos : list Repo) : string :=
  pretty (length branchRepos) +:+ " repos on branch "
  +:+ chalk_green chalk ("<" +:+ branch +:+ ">").

Definition repo_line (repo : Repo) : string :=
  "  " +:+ chalk_grey chalk "↳" +:+ " " +:+ chalk_yellow chalk (relPath repo).

Definition handler (argv : Argv) : Promise W unit :=
  repos <- getRepos (exclude argv) None ;;
  branchMap <- getBranchMap repos ;;
  forEach branchMap (fun '(branch, branchRepos) =>
    log (header branch branchRepos) ;;
    if bool_decide (branch <> "master")
    then forEach branchRepos (fun repo => log (repo_line repo))
    else ret tt).
End WithImports.
End BranchCmd.

Module ReposBranches.
Section WithBinding.
Variable NG : NodeGit.
Variable settle : nat -> nat.

(** Modelled from the spec: repos.js is not among the sources.  Section 3
    ([BranchMap]): a repository joins the bucket of its branch; a branch
    seen for the first time gets a new bucket, after the others. *)
Fixpoint bucket (branch : string) (repo : Repo) (m : list (string * list Repo))
  : list (string * list Repo) :=
  match m with
  | [] => [(branch, [repo])]
  | (b, rs) :: m' =>
      if bool_decide (b = branch) then (b, rs ++ [repo]) :: m'
      else (b, rs) :: bucket branch repo m'
  end.

(** Modelled from the spec: section 4.3 ([classifyBranches]), the buckets of
    the repositories of [repos], given the branch of each. *)
Fixpoint group (repos : list Repo) (branches : list string)
    (m : list (string * list Repo)) : list (string * list Repo) :=
  match repos, branches with
  | r :: repos', b :: branches' => group repos' branches' (bucket b r m)
  | _, _ => m
  end.

(** Modelled from the spec: repos.js is not among the sources.  Section 4.3
    ([classifyBranches]): invoke the current-branch operation on each
    repository and group the repositories by the result. *)
Definition getBranchMap (repos : list Repo)
  : Promise (World NG) (list (string * list Repo)) :=
  branches <- Promise_all settle (map (Git.getCurrentBranch NG) repos) ;;
  ret (group repos branches []).
End WithBinding.
End ReposBranches.

(** ** The model, for the rest of git.js *)

Module LibGit2Checkout.
Import LibGit2.

(** [git_branch_create] behind [Repository.prototype.createBranch]: the
    branch must not exist unless [force] is set, and a forced update of the
    branch HEAD is on is refused.  (libgit2 reports EEXISTS for an existing
    branch; the generic error class stands for it here.)  A null commit
    fails the lookup of the commit.  The name is taken as it is: libgit2
    also refuses a name that is not a valid reference name, and the
    theorems on new branches are stated for plain names. *)
Definition createBranch (h : Repo) (name : string) (commit : option Commit)
    (force : bool) : native Disk Reference :=
  update_repo h (fun r =>
    match commit with
    | None => (Rejected (NodeGitError GIT_ERROR), r)
    | Some c =>
        let full := "refs/heads/" +:+ name in
        let created :=
          (Resolved {| ref_owner := h; ref_name := full; ref_commit := c |},
           set_refs (<[full := Direct c]> (refs r)) r) in
        match refs r !! full with
        | None => created
        | Some _ =>
            if force && negb (is_head r full) then created
            else (Rejected (NodeGitError GIT_ERROR), r)
        end
    end).

(** [Repository.prototype.checkoutRef]: check the tree of the commit out,
    then set HEAD on the reference. *)
Definition checkout_ref (full : string) (c : Commit) (r : Repository)
  : result unit * Repository :=
  match Checkout_tree (c_tree c) r with
  | (Rejected e, r') => (Rejected e, r')
  | (Resolved _, r') =>
      (Resolved tt, set_refs (<["HEAD" := Symbolic full]> (refs r')) r')
  end.

(** [Repository.prototype.checkoutBranch]: look the name up as
    [getBranch] does; a reference that is not a local branch is left alone
    and the call resolves. *)
Definition checkoutBranch (h : Repo) (name : string) : native Disk unit :=
  update_repo h (fun r =>
    match dwim r name with
    | Rejected e => (Rejected e, r)
    | Resolved (full, c) =>
        if is_branch full then checkout_ref full c r else (Resolved tt, r)
    end).

Definition binding : NodeGitCheckout := {|
  checkout_base := LibGit2.binding;
  commit_message := c_message;
  repo_checkoutBranch := checkoutBranch;
  repo_createBranch := createBranch
|}.
End LibGit2Checkout.

(** The branch names made of letters, digits, '-' and '_' that do not start
    with '-': git takes every one of them as the name of a branch. *)
Definition plain_char (a : Ascii.ascii) : bool :=
  let n := Ascii.nat_of_ascii a in
  ((48 <=? n) && (n <=? 57) || (65 <=? n) && (n <=? 90) || (97 <=? n) && (n <=? 122)
   || (n =? 45) || (n =? 95))%nat.

Fixpoint plain_chars (b : string) : bool :=
  match b with
  | EmptyString => true
  | String a b' => plain_char a && plain_chars b'
  end.

Definition plain_name (b : string) : bool :=
  match b with
  | EmptyString => false
  | String a _ => negb (Ascii.nat_of_ascii a =? 45)%nat && plain_chars b
  end.

(** Whether every task of a batch resolved. *)
Definition all_resolved {A} (rs : list (result A)) : bool :=
  forallb (fun r => match r with Resolved _ => true | Rejected _ => false end) rs.

(** A repository that has just been committed: HEAD resolves to a commit
    with the message, and nothing is pending. *)
Definition just_committed (message : string) (r : LibGit2.Repository) : Prop :=
  (exists name c,
      LibGit2.lookup_resolved (LibGit2.refs r) LibGit2.MAX_NESTING_LEVEL "HEAD"
      = Resolved (name, c)
      /\ LibGit2.c_message c = message)
  /\ LibGit2.status_files r = [].

(** Running [m] changes no repository of the disk but the one at [p]. *)
Definition frames {A} (p : Repo) (m : Promise LibGit2.Disk A) : Prop :=
  forall s q, q <> p -> world (m s).2 !! q = world s !! q.

(** ** Facts on promises *)

Section PromiseFacts.
Context {W : Type}.
Implicit Types s : State W.

Lemma emits_ret {A} (a : A) : emits (W:=W) (ret a) [].
Proof. intros s. simpl. by rewrite app_nil_r. Qed.

Lemma emits_await {A} (f : native W A) : emits (await f) [].
Proof.
  intros s. unfold await. destruct (f (world s)) as [r w]. simpl.
  by rewrite app_nil_r.
Qed.

Lemma emits_peek {A} (f : W -> A) : emits (peek f) [].
Proof. intros s. simpl. by rewrite app_nil_r. Qed.

Lemma emits_bind {A B} (m : Promise W A) (k : A -> Promise W B) cs :
  emits m cs -> (forall a, emits (k a) []) -> emits (bind m k) cs.
Proof.
  intros Hm Hk s. unfold bind. specialize (Hm s).
  destruct (m s) as [[a|e] s1]; simpl in *; [|done].
  destruct (Hk a s1) as [Hc Ho]. rewrite Hc, Ho, app_nil_r. done.
Qed.

Lemma emits_enter {A} c (k : Promise W A) cs :
  emits k cs -> emits (enter c ;; k) (c :: cs).
Proof.
  intros Hk s. unfold bind, enter.
  destruct (Hk (mkState (world s) (console s) (calls s ++ [c]))) as [Hc Ho].
  rewrite Hc, Ho. simpl. by rewrite <- app_assoc.
Qed.

(** Every task of a batch runs, whatever the others do. *)
Lemma dispatch_emits {A B} (f : B -> Promise W A) (tr : B -> list GitCall) l :
  (forall x, emits (f x) (tr x)) ->
  forall s,
    calls (dispatch (map f l) s).2 = calls s ++ flat_map tr l
    /\ console (dispatch (map f l) s).2 = console s
    /\ length (dispatch (map f l) s).1 = length l.
Proof.
  intros Hf. induction l as [|x l IH]; intros s; simpl.
  - by rewrite app_nil_r.
  - destruct (Hf x s) as [Hc Ho].
    destruct (f x s) as [r s1]; simpl in *.
    destruct (IH s1) as (Hc' & Ho' & Hl).
    destruct (dispatch (map f l) s1) as [rs s2]; simpl in *.
    rewrite Hc', Ho', Hc, Ho, Hl, <- app_assoc. done.
Qed.

Lemma first_rejection_Some {A} settle i (rs : list (result A)) j e :
  first_rejection settle i rs = Some (j, e) -> Rejected e ∈ rs.
Proof.
  revert i j e. induction rs as [|[a|e0] rs IH]; intros i j e; simpl.
  - done.
  - intros H. right. by eapply IH.
  - destruct (first_rejection settle (S i) rs) as [[j' e']|] eqn:Hfr.
    + destruct (settle j' <? settle i)%nat; intros [= <- <-].
      * right. by eapply IH.
      * left.
    + intros [= <- <-]. left.
Qed.

Lemma first_rejection_None {A} settle i (rs : list (result A)) :
  first_rejection settle i rs = None -> rs = map Resolved (fulfilled rs).
Proof.
  revert i. induction rs as [|[a|e0] rs IH]; intros i; simpl.
  - done.
  - intros H. f_equal. by eapply IH.
  - destruct (first_rejection settle (S i) rs) as [[j' e']|]; [|done].
    by destruct (settle j' <? settle i)%nat.
Qed.

Lemma first_rejection_is_Some {A} settle i (rs : list (result A)) e :
  Rejected e ∈ rs -> is_Some (first_rejection settle i rs).
Proof.
  intros Hin.
  destruct (first_rejection settle i rs) as [x|] eqn:Hfr; [by eexists|].
  apply first_rejection_None in Hfr. rewrite Hfr in Hin.
  apply list_elem_of_fmap in Hin as (a & Ha & _). done.
Qed.

(** The rejection picked is the one that settles first: no rejected task
    settles before it, and among those that settle with it none has a
    lower index. *)
Lemma first_rejection_earliest {A} settle i (rs : list (result A)) j e :
  first_rejection settle i rs = Some (j, e) ->
  exists k,
    j = (i + k)%nat
    /\ rs !! k = Some (Rejected e)
    /\ forall k' e',
        rs !! k' = Some (Rejected e') ->
        (settle j <= settle (i + k'))%nat
        /\ (settle j = settle (i + k')%nat -> (j <= i + k')%nat).
Proof.
  revert i j e. induction rs as [|[a|e0] rs IH]; intros i j e; simpl.
  - done.
  - intros Hfr. destruct (IH _ _ _ Hfr) as (k & -> & Hk & Hmin).
    exists (S k). rewrite Nat.add_succ_r. split; [done|]. split; [done|].
    intros [|k'] e' Hk'; [done|].
    rewrite Nat.add_succ_r. apply (Hmin k' e' Hk').
  - destruct (first_rejection settle (S i) rs) as [[j' e'']|] eqn:Hfr.
    + destruct (IH _ _ _ Hfr) as (k & -> & Hk & Hmin). simpl in Hmin |- *.
      destruct (settle (S (i + k)) <? settle i)%nat eqn:Hlt; intros [= <- <-].
      * apply Nat.ltb_lt in Hlt. exists (S k). rewrite Nat.add_succ_r.
        split; [done|]. split; [done|].
        intros [|k'] e' Hk'; rewrite ?Nat.add_succ_r, ?Nat.add_0_r; [lia|].
        apply (Hmin k' e' Hk').
      * apply Nat.ltb_ge in Hlt. exists 0%nat. rewrite Nat.add_0_r.
        split; [done|]. split; [done|].
        intros [|k'] e' Hk'; rewrite ?Nat.add_succ_r, ?Nat.add_0_r; [lia|].
        destruct (Hmin k' e' Hk') as [Hle Htie]. lia.
    + intros [= <- <-]. exists 0%nat. rewrite Nat.add_0_r.
      split; [done|]. split; [done|].
      intros [|k'] e' Hk'; rewrite ?Nat.add_succ_r, ?Nat.add_0_r; [lia|].
      simpl in Hk'.
      apply list_elem_of_lookup_2, (first_rejection_is_Some settle (S i)) in Hk'.
      rewrite Hfr in Hk'. by destruct Hk'.
Qed.

(** When a task of the batch is rejected, [Promise.all] rejects with the
    error of the rejected task that settles first. *)
Lemma Promise_all_first {A} settle (tasks : list (Promise W A)) s :
  (exists e, Rejected e ∈ (dispatch tasks s).1) ->
  exists j e,
    (dispatch tasks s).1 !! j = Some (Rejected e)
    /\ (Promise_all settle tasks s).1 = Rejected e
    /\ forall k e',
        (dispatch tasks s).1 !! k = Some (Rejected e') ->
        (settle j <= settle k)%nat /\ (settle j = settle k -> (j <= k)%nat).
Proof.
  intros [e0 He0]. unfold Promise_all.
  destruct (dispatch tasks s) as [rs s']. simpl in *.
  destruct (first_rejection settle 0 rs) as [[j e]|] eqn:Hfr.
  - destruct (first_rejection_earliest _ _ _ _ _ Hfr) as (k & -> & Hk & Hmin).
    exists k, e. done.
  - apply (first_rejection_is_Some settle 0) in He0. rewrite Hfr in He0.
    by destruct He0.
Qed.

(** [Promise.all] settles once every task has, in the state they leave;
    it rejects with the error of one of the rejected tasks when there is
    one, and resolves with all the values otherwise. *)
Lemma Promise_all_outcome {A} settle (tasks : list (Promise W A)) s :
  (Promise_all settle tasks s).2 = (dispatch tasks s).2
  /\ ((exists e, Rejected e ∈ (dispatch tasks s).1) ->
      exists e, Rejected e ∈ (dispatch tasks s).1
                /\ (Promise_all settle tasks s).1 = Rejected e)
  /\ ((forall e, Rejected e ∉ (dispatch tasks s).1) ->
      (Promise_all settle tasks s).1 = Resolved (fulfilled (dispatch tasks s).1)).
Proof.
  unfold Promise_all. destruct (dispatch tasks s) as [rs s1]; simpl.
  destruct (first_rejection settle 0 rs) as [[j e]|] eqn:Hfr; simpl.
  - apply first_rejection_Some in Hfr. split; [done|]. split.
    + intros _. by exists e.
    + intros Hno. by destruct (Hno e).
  - split; [done|]. split; [|done].
    intros [e He]. apply (first_rejection_is_Some settle 0) in He.
    rewrite Hfr in He. by destruct He.
Qed.

End PromiseFacts.

(** ** Facts on git.js over any binding *)

(** Closes an equation by evaluating its two sides. *)
Ltac by_evaluation :=
  lazymatch goal with
  | |- @eq ?T _ ?rhs => vm_cast_no_check (@eq_refl T rhs)
  end.

(** Closes a decidable proposition by evaluating its decision. *)
Ltac by_decision :=
  lazymatch goal with
  | |- ?P => apply (bool_decide_eq_true_1 P); by_evaluation
  end.

Ltac silent :=
  repeat first
    [ apply emits_ret | apply emits_await | apply emits_peek
    | apply emits_bind; [|intros ?] ].

Section GitFacts.
Variable NG : NodeGit.

Lemma getCurrentBranch_emits p :
  emits (Git.getCurrentBranch NG p) [call_getCurrentBranch p].
Proof. apply emits_enter. unfold Git.getRepo. silent. Qed.

Lemma sync_emits p : emits (Git.sync NG p) (sync_calls p).
Proof.
  apply emits_enter, emits_bind; [apply getCurrentBranch_emits|].
  intros branch. unfold Git.getRepo. silent.
Qed.

Lemma commitAll_emits message p :
  emits (Git.commitAll NG p message) (commitAll_calls message p).
Proof. apply emits_enter. unfold Git.getRepo. silent. Qed.

Lemma synced_app cs1 cs2 : synced (cs1 ++ cs2) = synced cs1 ++ synced cs2.
Proof. apply omap_app. Qed.

Lemma committed_app cs1 cs2 : committed (cs1 ++ cs2) = committed cs1 ++ committed cs2.
Proof. apply omap_app. Qed.

Lemma synced_sync_calls l : synced (flat_map sync_calls l) = l.
Proof. induction l as [|p l IH]; simpl; [done|]. by rewrite IH. Qed.

Lemma committed_commitAll_calls message l :
  committed (flat_map (commitAll_calls message) l) = map (fun p => (p, message)) l.
Proof. induction l as [|p l IH]; simpl; [done|]. by rewrite IH. Qed.



Variable settle : nat -> nat.

(** A batch followed by its summary line: every task is entered; the
    state left is the one the tasks leave together; the summary is
    printed when no task rejects, and otherwise the batch rejects with
    the error of a rejected task and prints nothing. *)
Lemma batch_then_report {A B} (f : B -> Promise (World NG) A) tr l line s :
  (forall x, emits (f x) (tr x)) ->
  let tasks := dispatch (map f l) s in
  let out := (Promise_all settle (map f l) ;; green line) s in
  calls out.2 = calls s ++ flat_map tr l
  /\ world out.2 = world tasks.2
  /\ length tasks.1 = length l
  /\ ((exists e, Rejected e ∈ tasks.1) ->
      (exists e, Rejected e ∈ tasks.1 /\ out.1 = Rejected e)
      /\ console out.2 = console s)
  /\ ((forall e, Rejected e ∉ tasks.1) ->
      out.1 = Resolved tt /\ console out.2 = console s ++ [line]).
Proof.
  intros Hf tasks out.
  destruct (Promise_all_outcome settle (map f l) s) as (Hst & Hrej & Hres).
  destruct (dispatch_emits f tr l Hf s) as (Hc & Ho & Hl).
  fold tasks in Hst, Hrej, Hres, Hc, Ho, Hl.
  assert (Hcases : (exists e, Rejected e ∈ tasks.1) \/ (forall e, Rejected e ∉ tasks.1)).
  { destruct (first_rejection settle 0 tasks.1) as [[j e]|] eqn:Hfr.
    - left. exists e. by eapply first_rejection_Some.
    - right. intros e He. apply (first_rejection_is_Some settle 0) in He.
      rewrite Hfr in He. by destruct He. }
  subst out. unfold bind, green.
  destruct Hcases as [Hex|Hno].
  - destruct (Hrej Hex) as (e & He & Hout).
    destruct (Promise_all settle (map f l) s) as [[vs|e0] s1]; simpl in *;
      [done|]. subst s1. injection Hout as ->.
    split; [done|]. split; [done|]. split; [done|]. split.
    + intros _. split; [by exists e|done].
    + intros Hno. by destruct (Hno e).
  - specialize (Hres Hno).
    destruct (Promise_all settle (map f l) s) as [[vs|e0] s1]; simpl in *;
      [|done]. subst s1. simpl. rewrite Hc, Ho.
    split; [done|]. split; [done|]. split; [done|]. split.
    + intros [e He]. by destruct (Hno e).
    + done.
Qed.
End GitFacts.

Lemma bind_resolved {W A B} (m : Promise W A) (k : A -> Promise W B) s a s' :
  m s = (Resolved a, s') -> bind m k s = k a s'.
Proof. intros H. unfold bind. by rewrite H. Qed.

(** A batch followed by its summary line rejects with the error of the
    rejected task that settles first. *)
Lemma batch_rejects_with_the_first {W A B} settle (f : B -> Promise W A) l line
    (s : State W) :
  (exists e, Rejected e ∈ (dispatch (map f l) s).1) ->
  exists j e,
    (dispatch (map f l) s).1 !! j = Some (Rejected e)
    /\ ((Promise_all settle (map f l) ;; green line) s).1 = Rejected e
    /\ forall k e',
        (dispatch (map f l) s).1 !! k = Some (Rejected e') ->
        (settle j <= settle k)%nat /\ (settle j = settle k -> (j <= k)%nat).
Proof.
  intros Hex.
  destruct (Promise_all_first settle (map f l) s Hex) as (j & e & Hj & Hout & Hmin).
  exists j, e. split; [done|]. split; [|done]. unfold bind.
  destruct (Promise_all settle (map f l) s) as [[v|e1] s1]; simpl in *; congruence.
Qed.

(** Over any binding, once the repository is open, its current branch
    known and its remotes fetched, [sync] is one call of [mergeBranches]:
    from the branch named "origin/master", whatever the current branch is,
    and by fast-forward only. *)
Lemma sync_delegates NG p (s : State (World NG)) repo w1 ref w2 repo' w3 w4 x w5 :
  Repository_open NG p (world s) = (Resolved repo, w1) ->
  repo_getCurrentBranch NG repo w1 = (Resolved ref, w2) ->
  Repository_open NG p w2 = (Resolved repo', w3) ->
  repo_fetchAll NG repo' {| callbacks := callbacks Git.remoteCallbacks |} w3
    = (Resolved tt, w4) ->
  repo_mergeBranches NG repo' (ref_shorthand NG ref) "origin/master"
    (repo_defaultSignature NG repo' w4) PREFERENCE_FASTFORWARD_ONLY w4 = (x, w5) ->
  Git.sync NG p s
  = (match x with Resolved _ => Resolved tt | Rejected e => Rejected e end,
     mkState w5 (console s) (calls s ++ sync_calls p)).
Proof.
  intros Hopen Hbranch Hopen' Hfetch Hmerge.
  unfold Git.sync, Git.getCurrentBranch, Git.getRepo, bind, enter, await, peek, ret.
  simpl in Hfetch |- *.
  rewrite Hopen. simpl. rewrite Hbranch. simpl. rewrite Hopen'. simpl.
  rewrite Hfetch. simpl. rewrite Hmerge. rewrite <- app_assoc. by destruct x.
Qed.

Lemma all_resolved_spec {A} (rs : list (result A)) :
  all_resolved rs = true -> forall e, Rejected e ∉ rs.
Proof.
  unfold all_resolved. rewrite forallb_forall. intros Hall e He.
  apply list_elem_of_In, Hall in He. discriminate He.
Qed.

(** ** Properties of the command handlers

    The handlers are linked with any implementation of the two functions
    they import from repos.js; the properties are stated from the state
    [s2] in which the classification has left the fleet. *)





(** C2, as the specification states it, fails on the fleet.  Of the two
    clean repositories, behind can be synced and offline cannot be fetched:
    both tasks are started, the rejection of offline is the outcome of the
    whole handler, no outcome is recorded for behind, and nothing is
    printed. *)
Lemma sync_failure_leaves_the_batch :
  let argv := {| SyncCmd.exclude := ["diverged"; "topic"; "feature"];
                 SyncCmd.scope := None |} in
  let out := Fleet.sync_cmd argv Fleet.start in
  (Git.sync LibGit2.binding "/fleet/behind" Fleet.start).1 = Resolved tt
  /\ (Git.sync LibGit2.binding "/fleet/offline" Fleet.start).1
     = Rejected (NodeGitError GIT_ERROR)
  /\ synced (calls out.2) = ["/fleet/behind"; "/fleet/offline"]
  /\ out.1 = Rejected (NodeGitError GIT_ERROR)
  /\ ~ (exists v, out.1 = Resolved v)
  /\ console out.2 = [].
Proof.
  intros argv out.
  assert (Hout : out.1 = Rejected (NodeGitError GIT_ERROR)) by by_evaluation.
  split; [by_evaluation|]. split; [by_evaluation|].
  split; [by_evaluation|]. split; [exact Hout|].
  split; [|by_evaluation].
  intros [v Hv]. rewrite Hout in Hv. discriminate Hv.
Qed.

(** C2, amended.  In a batch of either verb every task is started and runs
    to its own outcome, whatever the others do: the handler leaves the
    world that the tasks leave together.  But a failure is not recorded as
    an outcome: when a task rejects, the handler rejects with the error of
    the rejected task that settles first (no rejected task settles before
    it; the lower index on a tie), the results of the other tasks are
    dropped, and no summary is printed. *)
Theorem batch_failure_rejects_the_handler NG getRepos getStatusGroups settle :
  (forall argv (s : State (World NG)) repos s1 groups s2,
      getRepos (SyncCmd.exclude argv) (SyncCmd.scope argv) s = (Resolved repos, s1) ->
      getStatusGroups repos s1 = (Resolved groups, s2) ->
      let tasks := dispatch (map (Git.sync NG) (Repos.clean groups)) s2 in
      let out := SyncCmd.handler NG getRepos getStatusGroups settle argv s in
      length tasks.1 = length (Repos.clean groups)
      /\ synced (calls out.2) = synced (calls s2) ++ Repos.clean groups
      /\ world out.2 = world tasks.2
      /\ ((exists e, Rejected e ∈ tasks.1) ->
          (exists j e,
              tasks.1 !! j = Some (Rejected e)
              /\ out.1 = Rejected e
              /\ forall k e',
                  tasks.1 !! k = Some (Rejected e') ->
                  (settle j <= settle k)%nat /\ (settle j = settle k -> (j <= k)%nat))
          /\ console out.2 = console s2))
  /\ (forall argv (s : State (World NG)) repos s1 groups s2,
      getRepos (CommitCmd.exclude argv) (CommitCmd.scope argv) s = (Resolved repos, s1) ->
      getStatusGroups repos s1 = (Resolved groups, s2) ->
      let tasks :=
        dispatch (map (fun repo => Git.commitAll NG repo (CommitCmd.message argv))
                    (Repos.dirty groups)) s2 in
      let out := CommitCmd.handler NG getRepos getStatusGroups settle argv s in
      length tasks.1 = length (Repos.dirty groups)
      /\ committed (calls out.2)
         = committed (calls s2)
           ++ map (fun p => (p, CommitCmd.message argv)) (Repos.dirty groups)
      /\ world out.2 = world tasks.2
      /\ ((exists e, Rejected e ∈ tasks.1) ->
          (exists j e,
              tasks.1 !! j = Some (Rejected e)
              /\ out.1 = Rejected e
              /\ forall k e',
                  tasks.1 !! k = Some (Rejected e') ->
                  (settle j <= settle k)%nat /\ (settle j = settle k -> (j <= k)%nat))
          /\ console out.2 = console s2)).
Proof.
  split; intros argv s repos s1 groups s2 H1 H2 tasks out; subst out tasks.
  - unfold SyncCmd.handler.
    rewrite (bind_resolved _ _ _ _ _ H1), (bind_resolved _ _ _ _ _ H2).
    destruct (batch_then_report NG settle (Git.sync NG) sync_calls (Repos.clean groups)
                (SyncCmd.summary (length (Repos.clean groups))) s2 (sync_emits NG))
      as (Hc & Hw & Hl & Hrej & _).
    rewrite Hc, synced_app, synced_sync_calls.
    split; [done|]. split; [done|]. split; [done|].
    intros Hex. split; [|by apply Hrej].
    by apply batch_rejects_with_the_first.
  - unfold CommitCmd.handler.
    rewrite (bind_resolved _ _ _ _ _ H1), (bind_resolved _ _ _ _ _ H2).
    destruct (batch_then_report NG settle
                (fun repo => Git.commitAll NG repo (CommitCmd.message argv))
                (commitAll_calls (CommitCmd.message argv)) (Repos.dirty groups)
                (CommitCmd.summary (length (Repos.dirty groups)) (CommitCmd.message argv))
                s2 (commitAll_emits NG (CommitCmd.message argv)))
      as (Hc & Hw & Hl & Hrej & _).
    rewrite Hc, committed_app, committed_commitAll_calls.
    split; [done|]. split; [done|]. split; [done|].
    intros Hex. split; [|by apply Hrej].
    by apply (batch_rejects_with_the_first settle
                (fun repo => Git.commitAll NG repo (CommitCmd.message argv))).
Qed.

Lemma batch_failure_rejects_the_handler_witness :
  let lonely :=
    Fleet.checkout "topic" {[ "refs/heads/topic" := LibGit2.Direct Fleet.initial ]}
      (LibGit2.c_tree Fleet.initial) (LibGit2.c_tree Fleet.initial)
      (Fleet.origin true {[ "topic" := Fleet.local ]}) in
  let s := mkState (<["/fleet/topic" := lonely]> Fleet.disk) [] [] in
  let argv := {| SyncCmd.exclude := ["behind"; "diverged"; "feature"];
                 SyncCmd.scope := None |} in
  let sync_cmd settle :=
    SyncCmd.handler LibGit2.binding (Repos.getRepos LibGit2.binding Fleet.catalog)
      (Repos.getStatusGroups LibGit2.binding Fleet.in_order) settle argv s in
  (Git.sync LibGit2.binding "/fleet/offline" s).1 = Rejected (NodeGitError GIT_ERROR)
  /\ (Git.sync LibGit2.binding "/fleet/topic" s).1 = Rejected (NodeGitError GIT_ENOTFOUND)
  /\ (sync_cmd (fun i => i)).1 = Rejected (NodeGitError GIT_ERROR)
  /\ (sync_cmd (fun i => 1 - i)%nat).1 = Rejected (NodeGitError GIT_ENOTFOUND).
Proof.
  intros lonely s argv sync_cmd.
  pose (repos := ["/fleet/edited"; "/fleet/offline"; "/fleet/unborn"; "/fleet/topic"]).
  pose (groups := {| Repos.clean := ["/fleet/offline"; "/fleet/topic"];
                     Repos.dirty := ["/fleet/edited"; "/fleet/unborn"] |}).
  pose (s2 := mkState (world s) [] (map call_isStatusClean repos)).
  split; [by_evaluation|]. split; [by_evaluation|]. split.
  - destruct (batch_failure_rejects_the_handler LibGit2.binding
                (Repos.getRepos LibGit2.binding Fleet.catalog)
                (Repos.getStatusGroups LibGit2.binding Fleet.in_order) (fun i => i))
      as [Hsync _].
    destruct (Hsync argv s repos s groups s2) as (Hlen & _ & _ & Hrej).
    + by_evaluation.
    + by_evaluation.
    + destruct Hrej as ((j & e & Hj & Hout & Hmin) & _).
      { exists (NodeGitError GIT_ERROR). apply (list_elem_of_lookup_2 _ 0%nat).
        by_evaluation. }
      destruct (Hmin 0%nat (NodeGitError GIT_ERROR)) as [Hle _]; [by_evaluation|].
      assert (j = 0%nat) as -> by lia.
      match type of Hj with
      | ?first = _ =>
          assert (Hfirst : first = Some (Rejected (NodeGitError GIT_ERROR)))
            by by_evaluation
      end.
      rewrite Hfirst in Hj. injection Hj as <-. exact Hout.
  - destruct (batch_failure_rejects_the_handler LibGit2.binding
                (Repos.getRepos LibGit2.binding Fleet.catalog)
                (Repos.getStatusGroups LibGit2.binding Fleet.in_order)
                (fun i => 1 - i)%nat)
      as [Hsync _].
    destruct (Hsync argv s repos s groups s2) as (Hlen & _ & _ & Hrej).
    + by_evaluation.
    + by_evaluation.
    + destruct Hrej as ((j & e & Hj & Hout & Hmin) & _).
      { exists (NodeGitError GIT_ERROR). apply (list_elem_of_lookup_2 _ 0%nat).
        by_evaluation. }
      destruct (Hmin 1%nat (NodeGitError GIT_ENOTFOUND)) as [Hle _]; [by_evaluation|].
      pose proof (lookup_lt_Some _ _ _ Hj) as Hlt. rewrite Hlen in Hlt. simpl in Hlt.
      assert (j = 1%nat) as -> by lia.
      match type of Hj with
      | ?second = _ =>
          assert (Hsecond : second = Some (Rejected (NodeGitError GIT_ENOTFOUND)))
            by by_evaluation
      end.
      rewrite Hsecond in Hj. injection Hj as <-. exact Hout.
Defined.

(** ** Properties of the branch helpers, over any binding *)

(** C9.  Once the repository is open, [hasBranch] resolves with a boolean
    and never rejects: true when the lookup of the branch resolves, false
    when it rejects, whatever the error. *)
Theorem hasBranch_never_rejects NG repoPath branchName (s : State (World NG)) repo w1 :
  Repository_open NG repoPath (world s) = (Resolved repo, w1) ->
  exists b,
    (Git.hasBranch NG repoPath branchName s).1 = Resolved b
    /\ (b = true <-> exists ref, (repo_getBranch NG repo branchName w1).1 = Resolved ref)
    /\ (forall e, (repo_getBranch NG repo branchName w1).1 = Rejected e -> b = false).
Proof.
  intros Hopen.
  unfold Git.hasBranch, Git.getRepo, bind, enter, try_catch, await. simpl.
  rewrite Hopen. simpl.
  destruct (repo_getBranch NG repo branchName w1) as [[ref|e] w2]; simpl.
  - exists true. split; [done|]. split; [|done]. split; [|done]. intros _. by exists ref.
  - exists false. split; [done|]. split; [|done]. split; [done|]. by intros [ref ?].
Qed.

Lemma hasBranch_never_rejects_witness :
  (Git.hasBranch LibGit2.binding "/fleet/feature" "master" Fleet.start).1 = Resolved true
  /\ (Git.hasBranch LibGit2.binding "/fleet/topic" "master" Fleet.start).1 = Resolved false.
Proof.
  split.
  - destruct (hasBranch_never_rejects LibGit2.binding "/fleet/feature" "master"
                Fleet.start "/fleet/feature" Fleet.disk) as (b & Hb & Htrue & _).
    + by_evaluation.
    + rewrite Hb. f_equal. apply Htrue.
      exists {| LibGit2.ref_owner := "/fleet/feature";
                LibGit2.ref_name := "refs/heads/master";
                LibGit2.ref_commit := Fleet.upstream |}.
      by_evaluation.
  - destruct (hasBranch_never_rejects LibGit2.binding "/fleet/topic" "master"
                Fleet.start "/fleet/topic" Fleet.disk) as (b & Hb & _ & Hfalse).
    + by_evaluation.
    + rewrite Hb. f_equal. apply (Hfalse (NodeGitError GIT_ENOTFOUND)).
      by_evaluation.
Defined.



(** ** Facts on the model: history *)

Section HistoryFacts.
Import LibGit2.

Lemma Commit_parents_ind (P : Commit -> Prop) :
  (forall c, Forall P (c_parents c) -> P c) -> forall c, P c.
Proof.
  intros H. fix IH 1. intros c. apply H.
  destruct c as [t m a co ps]. simpl.
  induction ps as [|p ps IHps]; constructor; [apply IH|apply IHps].
Qed.

Lemma history_unfold c : history c = c :: flat_map history (c_parents c).
Proof. by destruct c. Qed.

Lemma history_self c : c ∈ history c.
Proof. rewrite history_unfold. left. Qed.

Lemma Commit_size_parent p c :
  p ∈ c_parents c -> (Commit_size p < Commit_size c)%nat.
Proof.
  destruct c as [t m a co ps]. simpl. intros Hin.
  induction ps as [|q ps IH]; simpl.
  - by apply not_elem_of_nil in Hin.
  - apply elem_of_cons in Hin as [->|Hin]; [lia|]. specialize (IH Hin). lia.
Qed.

(** A commit of the history of [c'] is [c'] or a smaller commit. *)
Lemma history_size c c' :
  c ∈ history c' -> c = c' \/ (Commit_size c < Commit_size c')%nat.
Proof.
  revert c. induction c' as [c' IH] using Commit_parents_ind. intros c.
  rewrite history_unfold, elem_of_cons. intros [->|Hin]; [by left|]. right.
  apply list_elem_of_In, in_flat_map in Hin as (p & Hp & Hc).
  apply list_elem_of_In in Hp, Hc.
  pose proof (Commit_size_parent _ _ Hp) as Hlt.
  rewrite Forall_forall in IH.
  destruct (IH p Hp c Hc) as [->|?]; lia.
Qed.

Lemma history_antisym a b : a ∈ history b -> b ∈ history a -> a = b.
Proof.
  intros Hab Hba.
  destruct (history_size _ _ Hab) as [?|?]; [done|].
  destruct (history_size _ _ Hba) as [?|?]; [done|lia].
Qed.

Lemma Merge_base_unrelated a b :
  common_ancestors a b = [] -> Merge_base a b = not_found.
Proof. unfold Merge_base. by intros ->. Qed.

Lemma Merge_base_common a b c :
  Merge_base a b = Resolved c -> c ∈ history a /\ c ∈ history b.
Proof.
  unfold Merge_base.
  destruct (filter _ (common_ancestors a b)) as [|x l] eqn:Hf; [done|].
  intros [= <-].
  assert (Hx : x ∈ x :: l) by left. rewrite <- Hf in Hx.
  apply list_elem_of_filter in Hx as [_ Hx].
  unfold common_ancestors in Hx. apply list_elem_of_filter in Hx as [? ?]. done.
Qed.

(** Some common ancestor is the largest: no other one descends from it. *)
Lemma largest_commit (l : list Commit) :
  l <> [] -> exists c, c ∈ l /\ forall c', c' ∈ l -> (Commit_size c' <= Commit_size c)%nat.
Proof.
  induction l as [|x l IH]; [done|]. intros _.
  destruct l as [|y l].
  - exists x. split; [left|]. intros c' ->%list_elem_of_singleton. done.
  - destruct IH as (c & Hc & Hmax); [done|].
    destruct (decide (Commit_size c <= Commit_size x)%nat).
    + exists x. split; [left|]. intros c' [->|Hin]%elem_of_cons; [done|].
      specialize (Hmax _ Hin). lia.
    + exists c. split; [by right|]. intros c' [->|Hin]%elem_of_cons; [lia|].
      by apply Hmax.
Qed.

Lemma Merge_base_related a b :
  common_ancestors a b <> [] -> exists c, Merge_base a b = Resolved c.
Proof.
  intros Hne. unfold Merge_base.
  destruct (largest_commit _ Hne) as (c & Hc & Hmax).
  destruct (filter _ (common_ancestors a b)) as [|x l] eqn:Hf; [|by exists x].
  exfalso. eapply (filter_nil_not_elem_of _ _ c); [exact Hf| |exact Hc].
  apply Forall_forall. intros c' Hc'.
  destruct (decide (c' = c)) as [|Hneq]; [by left|]. right. intros Hin.
  destruct (history_size _ _ Hin) as [?|?]; [done|].
  specialize (Hmax _ Hc'). lia.
Qed.

(** When [a] is in the history of [b], it is their merge base. *)
Lemma Merge_base_ancestor a b : a ∈ history b -> Merge_base a b = Resolved a.
Proof.
  intros Hab. unfold Merge_base, common_ancestors.
  rewrite (history_unfold a), filter_cons_True by done.
  rewrite filter_cons_True; [done|].
  apply Forall_forall. intros c' Hc'.
  destruct (decide (c' = a)) as [|Hneq]; [by left|]. right. intros Hin.
  apply Hneq, history_antisym; [|done].
  apply elem_of_cons in Hc' as [?|Hc']; [done|].
  apply list_elem_of_filter in Hc' as [_ Hc'].
  rewrite history_unfold. by right.
Qed.

(** When [b] is in the history of [a], it is their merge base. *)
Lemma Merge_base_descendant a b : b ∈ history a -> Merge_base a b = Resolved b.
Proof.
  intros Hba.
  assert (Hcommon : b ∈ common_ancestors a b).
  { apply list_elem_of_filter. split; [apply history_self|done]. }
  destruct (Merge_base_related a b) as [c Hc].
  { intros Hnil. rewrite Hnil in Hcommon. by apply not_elem_of_nil in Hcommon. }
  rewrite Hc. f_equal.
  unfold Merge_base in Hc.
  destruct (filter _ (common_ancestors a b)) as [|x l] eqn:Hf; [done|].
  injection Hc as ->.
  assert (Hx : c ∈ c :: l) by left. rewrite <- Hf in Hx.
  apply list_elem_of_filter in Hx as [Hbest Hx].
  rewrite Forall_forall in Hbest.
  destruct (Hbest b Hcommon) as [?|Hnot]; [done|].
  apply list_elem_of_filter in Hx as [Hcb _]. done.
Qed.

Lemma Merge_base_diverged a b c :
  a ∉ history b -> b ∉ history a -> Merge_base a b = Resolved c -> c <> a /\ c <> b.
Proof.
  intros Ha Hb Hc. apply Merge_base_common in Hc as [Hca Hcb].
  split; intros ->; done.
Qed.
End HistoryFacts.


(** ** Facts on the model: trees and status *)

Section TreeFacts.
Import LibGit2.

Lemma lookup_zip3 {A} (f : option string -> option string -> option string -> option A)
    (a b c : Tree) path :
  f None None None = None ->
  zip3 f a b c !! path = f (a !! path) (b !! path) (c !! path).
Proof.
  intros Hf. unfold zip3. rewrite !lookup_merge.
  destruct (a !! path), (b !! path), (c !! path); simpl; by rewrite ?Hf.
Qed.

Lemma zip3_empty {A} (f : option string -> option string -> option string -> option A)
    (a b c : Tree) :
  f None None None = None ->
  zip3 f a b c = ∅ <-> forall path, f (a !! path) (b !! path) (c !! path) = None.
Proof.
  intros Hf. rewrite map_empty.
  split; intros H path; specialize (H path); by rewrite lookup_zip3 in *.
Qed.

Lemma status_entry_None h i w : status_entry h i w = None <-> h = i /\ i = w.
Proof. unfold status_entry. destruct (decide (h = i /\ i = w)); intuition congruence. Qed.

(** No status entry exactly when no path has a pending change. *)
Lemma status_files_nil r : status_files r = [] <-> forall path, ~ pending r path.
Proof.
  unfold status_files.
  set (m := zip3 status_entry (head_tree r) (index r) (workdir r)).
  assert (Hm : forall g : string * (bool * bool) -> StatusFile,
             map g (map_to_list m) = [] <-> m = ∅).
  { intros g. rewrite <- map_to_list_empty_iff. by destruct (map_to_list m). }
  rewrite Hm. subst m. rewrite zip3_empty by done.
  unfold pending, staged, unstaged.
  split; intros H path; specialize (H path).
  - apply status_entry_None in H. intuition congruence.
  - apply status_entry_None. split; apply dec_stable; intuition congruence.
Qed.

Lemma status_files_clean r :
  status_files r = [] <-> head_tree r = index r /\ index r = workdir r.
Proof.
  rewrite status_files_nil. unfold pending, staged, unstaged. split.
  - intros H. split; apply map_eq; intros path; specialize (H path);
      apply dec_stable; intuition congruence.
  - intros [-> ->] path. intuition congruence.
Qed.
End TreeFacts.


(** ** Facts on the model: git.js over the model *)

Section ModelFacts.
Import LibGit2.
Implicit Types (s : State Disk) (r : Repository).

Lemma isStatusClean_run s p r :
  world s !! p = Some r ->
  Git.isStatusClean binding p s
  = (Resolved (length (status_files r) =? 0)%nat,
     mkState (world s) (console s) (calls s ++ [call_isStatusClean p])).
Proof.
  intros Hr.
  unfold Git.isStatusClean, Git.getRepo, bind, enter, await, ret. simpl.
  unfold repository_open. rewrite Hr. simpl.
  unfold getStatus, read_repo. rewrite Hr. done.
Qed.

Lemma pending_of_status r : status_files r <> [] -> exists path, pending r path.
Proof.
  unfold status_files.
  set (m := zip3 status_entry (head_tree r) (index r) (workdir r)).
  destruct (map_to_list m) as [|[path x] l] eqn:Hl; [done|]. intros _.
  assert (Hin : (path, x) ∈ map_to_list m) by (rewrite Hl; left).
  apply elem_of_map_to_list in Hin. subst m.
  rewrite lookup_zip3 in Hin by done.
  exists path. unfold pending, staged, unstaged.
  destruct (decide (head_tree r !! path = index r !! path)) as [Heq|]; [|by left].
  right. intros Heq'.
  assert (Hnone : status_entry (head_tree r !! path) (index r !! path)
                    (workdir r !! path) = None) by by apply status_entry_None.
  by rewrite Hnone in Hin.
Qed.
End ModelFacts.

(** ** Properties of the status operation *)

(** C7.  On a repository of the model, [isStatusClean] resolves with true
    exactly when no path has a pending change (nothing staged, nothing
    modified, deleted or untracked in the working tree), and with false
    exactly when some path has one. *)
Theorem isStatusClean_iff_nothing_pending (s : State LibGit2.Disk) p r :
  world s !! p = Some r ->
  exists b,
    (Git.isStatusClean LibGit2.binding p s).1 = Resolved b
    /\ (b = true <-> forall path, ~ LibGit2.pending r path)
    /\ (b = false <-> exists path, LibGit2.pending r path).
Proof.
  intros Hr. rewrite (isStatusClean_run s p r Hr). simpl.
  exists (length (LibGit2.status_files r) =? 0)%nat. split; [done|].
  rewrite <- status_files_nil.
  destruct (LibGit2.status_files r) as [|x l] eqn:Hst; simpl.
  - split; [done|]. split; [done|]. intros [path Hp].
    by destruct (proj1 (status_files_nil r) Hst path).
  - split; [done|]. split; [|done]. intros _.
    apply pending_of_status. by rewrite Hst.
Qed.

Lemma isStatusClean_iff_nothing_pending_witness :
  (Git.isStatusClean LibGit2.binding "/fleet/behind" Fleet.start).1 = Resolved true
  /\ (Git.isStatusClean LibGit2.binding "/fleet/edited" Fleet.start).1 = Resolved false.
Proof.
  split.
  - destruct (isStatusClean_iff_nothing_pending Fleet.start "/fleet/behind" Fleet.behind)
      as (b & Hb & Htrue & _); [by_evaluation|].
    rewrite Hb. f_equal. apply Htrue, status_files_nil. by_evaluation.
  - destruct (isStatusClean_iff_nothing_pending Fleet.start "/fleet/edited" Fleet.edited)
      as (b & Hb & _ & Hfalse); [by_evaluation|].
    rewrite Hb. f_equal. apply Hfalse. exists "notes". right.
    unfold LibGit2.unstaged. by_decision.
Defined.


(** ** Facts on the model: references and commits *)

Section ReferenceFacts.
Import LibGit2.
Implicit Types (s : State Disk) (r : Repository) (rs : gmap string RefTarget).

Lemma lookup_resolved_mono rs n name x :
  lookup_resolved rs n name = Resolved x ->
  lookup_resolved rs (S n) name = Resolved x.
Proof.
  revert name. induction n as [|n IH]; intros name; simpl.
  - by destruct (rs !! name) as [[c|target]|].
  - simpl in IH. destruct (rs !! name) as [[c|target]|]; [done| |done]. apply IH.
Qed.

(** A resolved name is bound to the commit found. *)
Lemma lookup_resolved_direct rs n name terminal c :
  lookup_resolved rs n name = Resolved (terminal, c) ->
  rs !! terminal = Some (Direct c).
Proof.
  revert name. induction n as [|n IH]; intros name; simpl.
  - destruct (rs !! name) as [[c0|target]|] eqn:Hn; [|done|done].
    by intros [= <- <-].
  - destruct (rs !! name) as [[c0|target]|] eqn:Hn; [|apply IH|done].
    by intros [= <- <-].
Qed.

(** An update of [name] writes the reference that [name] resolves to. *)
Lemma update_terminal_resolved rs n name terminal c :
  lookup_resolved rs n name = Resolved (terminal, c) ->
  update_terminal rs n name = Resolved (terminal, Some c).
Proof.
  revert name. induction n as [|n IH]; intros name; simpl.
  - destruct (rs !! name) as [[c0|target]|]; [|done|done]. by intros [= <- <-].
  - destruct (rs !! name) as [[c0|target]|]; [|apply IH|done]. by intros [= <- <-].
Qed.

(** Moving the terminal reference moves what [name] resolves to. *)
Lemma lookup_resolved_insert rs n name terminal c c' :
  lookup_resolved rs n name = Resolved (terminal, c) ->
  lookup_resolved (<[terminal := Direct c']> rs) n name = Resolved (terminal, c').
Proof.
  revert name. induction n as [|n IH]; intros name; simpl.
  - destruct (decide (name = terminal)) as [->|Hne].
    + rewrite lookup_insert_eq. by destruct (rs !! terminal) as [[c0|target]|].
    + rewrite lookup_insert_ne by done.
      destruct (rs !! name) as [[c0|target]|]; [|done|done]. by intros [= <- <-].
  - destruct (decide (name = terminal)) as [->|Hne].
    + rewrite lookup_insert_eq.
      destruct (rs !! terminal) as [[c0|target]|] eqn:Ht; [done| |done].
      intros Hres. apply lookup_resolved_direct in Hres. congruence.
    + rewrite lookup_insert_ne by done.
      destruct (rs !! name) as [[c0|target]|]; [|apply IH|done]. by intros [= <- <-].
Qed.

(** The commit that the name HEAD resolves to is the one [repository_head]
    finds. *)
Lemma repository_head_of_HEAD r name c :
  lookup_resolved (refs r) MAX_NESTING_LEVEL "HEAD" = Resolved (name, c) ->
  repository_head r = Resolved (name, c).
Proof.
  unfold repository_head, MAX_NESTING_LEVEL.
  change (lookup_resolved (refs r) 10 "HEAD")
    with (match refs r !! "HEAD" with
          | None => not_found
          | Some (Direct c) => Resolved ("HEAD", c)
          | Some (Symbolic target) => lookup_resolved (refs r) 9 target
          end).
  destruct (refs r !! "HEAD") as [[c0|target]|]; [done| |done].
  intros Hres. by rewrite (lookup_resolved_mono _ _ _ _ Hres).
Qed.

Lemma head_tree_of_HEAD r name c :
  lookup_resolved (refs r) MAX_NESTING_LEVEL "HEAD" = Resolved (name, c) ->
  head_tree r = c_tree c.
Proof.
  intros Hres. unfold head_tree. by rewrite (repository_head_of_HEAD _ _ _ Hres).
Qed.

Lemma commit_not_its_parent t message author committer c ps :
  c ∈ ps -> mkCommit t message author committer ps <> c.
Proof.
  intros Hin Heq.
  pose proof (Commit_size_parent c (mkCommit t message author committer ps) Hin) as Hlt.
  rewrite Heq in Hlt. lia.
Qed.
End ReferenceFacts.


(** ** Facts on the model: commitAll and isAheadOfMaster *)

Arguments LibGit2.lookup_resolved : simpl never.
Arguments LibGit2.update_terminal : simpl never.
Arguments LibGit2.dwim : simpl never.
Arguments LibGit2.history : simpl never.
Arguments LibGit2.Merge_base : simpl never.
Arguments LibGit2.fetch_each : simpl never.

Section CommitFacts.
Import LibGit2.
Implicit Types (s : State Disk) (r : Repository).

(** The run of [commitAll] on a repository whose HEAD resolves: the index
    takes the working tree, and a commit of that tree, with the commit of
    HEAD as only parent, becomes the tip of the branch HEAD is on. *)
Lemma commitAll_run s p message r name c :
  world s !! p = Some r ->
  lookup_resolved (refs r) MAX_NESTING_LEVEL "HEAD" = Resolved (name, c) ->
  let signature := defaultSignature p (world s) in
  let c' := mkCommit (workdir r) message signature signature [c] in
  Git.commitAll binding p message s
  = (Resolved (CommitId c'),
     mkState
       (<[p := set_refs (<[name := Direct c']> (refs r)) (set_index (workdir r) r)]>
          (world s))
       (console s) (calls s ++ [call_commitAll p message])).
Proof.
  intros Hr Hhead signature c'.
  unfold Git.commitAll, Git.getRepo, bind, enter, await, peek, ret. simpl.
  unfold repository_open. rewrite Hr. simpl.
  unfold refreshIndex, read_repo. rewrite Hr. simpl.
  unfold addAll, update_repo. rewrite Hr. simpl.
  unfold write, writeTree, nameToId, getCommit, read_repo, update_repo.
  repeat first [rewrite lookup_insert_eq | rewrite Hhead | progress simpl].
  unfold createCommit. simpl.
  rewrite (update_terminal_resolved _ _ _ _ _ Hhead).
  rewrite bool_decide_eq_true_2 by (by right).
  simpl. rewrite insert_insert_eq. done.
Qed.

(** Once HEAD and master resolve, [isAheadOfMaster] only compares the two
    commits: the walk it starts from the commit of master always contains
    that commit. *)
Lemma isAheadOfMaster_run s p r head_name head_commit master_name master_commit :
  world s !! p = Some r ->
  lookup_resolved (refs r) MAX_NESTING_LEVEL "HEAD" = Resolved (head_name, head_commit) ->
  dwim r "master" = Resolved (master_name, master_commit) ->
  (Git.isAheadOfMaster binding p s).1
  = Resolved (negb (bool_decide (head_commit = master_commit))).
Proof.
  intros Hr Hhead Hmaster.
  unfold Git.isAheadOfMaster, Git.getRepo, bind, enter, await, peek, ret. simpl.
  unfold repository_open. rewrite Hr. simpl.
  unfold getHeadCommit, getMasterCommit, read_repo. rewrite Hr. simpl.
  rewrite Hhead. simpl. rewrite Hr, Hmaster. simpl.
  destruct (decide (head_commit = master_commit)) as [->|Hne].
  - rewrite !bool_decide_eq_true_2 by done. done.
  - rewrite (bool_decide_eq_false_2 (CommitId head_commit = _)) by congruence.
    rewrite (bool_decide_eq_false_2 (head_commit = _)) by done. simpl. f_equal.
    apply bool_decide_eq_true_2.
    apply (list_elem_of_fmap_2 CommitId), history_self.
Qed.
End CommitFacts.

(** ** Properties of commitAll *)

(** C3: the code departs from the claim, and from its own comment (like
    `git add . && git commit -am <message>`, which refuses to commit when
    nothing has changed).  The working tree of behind is clean, and
    [commitAll] resolves there: it writes a commit with the tree of its
    parent and moves HEAD to it. *)
Lemma commitAll_commits_a_clean_tree :
  let out := Git.commitAll LibGit2.binding "/fleet/behind" "wip" Fleet.start in
  let empty_commit :=
    LibGit2.mkCommit (LibGit2.c_tree Fleet.initial) "wip" Fleet.dev Fleet.dev
      [Fleet.initial] in
  (Git.isStatusClean LibGit2.binding "/fleet/behind" Fleet.start).1 = Resolved true
  /\ (LibGit2.nameToId "/fleet/behind" "HEAD" Fleet.disk).1
     = Resolved (LibGit2.CommitId Fleet.initial)
  /\ out.1 = Resolved (LibGit2.CommitId empty_commit)
  /\ ~ (exists e, out.1 = Rejected e)
  /\ (LibGit2.nameToId "/fleet/behind" "HEAD" (world out.2)).1
     = Resolved (LibGit2.CommitId empty_commit)
  /\ empty_commit <> Fleet.initial.
Proof.
  intros out empty_commit.
  assert (Hout : out.1 = Resolved (LibGit2.CommitId empty_commit)) by by_evaluation.
  split; [by_evaluation|]. split; [by_evaluation|]. split; [exact Hout|].
  split; [|split; [by_evaluation|by_decision]].
  intros [e He]. rewrite Hout in He. discriminate He.
Qed.

(** The run on behind is no accident of that repository.  On a repository
    of the model whose HEAD resolves to a commit, [commitAll] never checks
    that something has changed: it stages the working tree, writes a commit
    of it whose only parent is the commit of HEAD, and moves HEAD to that
    new commit.  When the working tree is clean the new commit has the tree
    of its parent. *)
Theorem commitAll_commits_whatever_the_status
    (s : State LibGit2.Disk) p message r name c :
  world s !! p = Some r ->
  LibGit2.lookup_resolved (LibGit2.refs r) LibGit2.MAX_NESTING_LEVEL "HEAD"
    = Resolved (name, c) ->
  let out := Git.commitAll LibGit2.binding p message s in
  exists c' r',
    out.1 = Resolved (LibGit2.CommitId c')
    /\ LibGit2.c_message c' = message
    /\ LibGit2.c_parents c' = [c]
    /\ LibGit2.c_tree c' = LibGit2.workdir r
    /\ c' <> c
    /\ world out.2 !! p = Some r'
    /\ LibGit2.lookup_resolved (LibGit2.refs r') LibGit2.MAX_NESTING_LEVEL "HEAD"
       = Resolved (name, c')
    /\ LibGit2.index r' = LibGit2.workdir r
    /\ LibGit2.workdir r' = LibGit2.workdir r
    /\ (LibGit2.status_files r = [] -> LibGit2.c_tree c' = LibGit2.c_tree c).
Proof.
  intros Hr Hhead out. subst out.
  rewrite (commitAll_run s p message r name c Hr Hhead). simpl.
  eexists _, _. split; [done|]. split; [done|]. split; [done|]. split; [done|].
  split; [apply commit_not_its_parent; left|].
  split; [apply lookup_insert_eq|].
  split; [simpl; eapply lookup_resolved_insert, Hhead|].
  split; [done|]. split; [done|].
  intros Hclean. simpl.
  apply status_files_clean in Hclean as [Hhi Hiw].
  rewrite <- Hiw, <- Hhi. by eapply head_tree_of_HEAD.
Qed.

Lemma commitAll_commits_whatever_the_status_witness :
  exists c',
    (Git.commitAll LibGit2.binding "/fleet/behind" "wip" Fleet.start).1
    = Resolved (LibGit2.CommitId c')
    /\ LibGit2.c_parents c' = [Fleet.initial]
    /\ LibGit2.c_tree c' = LibGit2.c_tree Fleet.initial.
Proof.
  destruct (commitAll_commits_whatever_the_status Fleet.start "/fleet/behind" "wip"
              Fleet.behind "refs/heads/master" Fleet.initial)
    as (c' & r' & Hout & _ & Hparents & _ & _ & _ & _ & _ & _ & Hclean).
  - by_evaluation.
  - by_evaluation.
  - exists c'. split; [exact Hout|]. split; [exact Hparents|].
    apply Hclean. by_evaluation.
Defined.

(** ** Properties of isAheadOfMaster *)

(** C1: the code departs from the claim.  In the repository feature of the
    fleet, HEAD is on a commit that master does not have and master is on a
    commit that HEAD does not have: the commit of master is not in the
    history of HEAD, and yet [isAheadOfMaster] resolves with true. *)
Lemma isAheadOfMaster_true_when_diverged :
  (LibGit2.getHeadCommit "/fleet/feature" Fleet.disk).1 = Resolved (Some Fleet.local)
  /\ (LibGit2.getMasterCommit "/fleet/feature" Fleet.disk).1 = Resolved Fleet.upstream
  /\ (Fleet.upstream ∉ LibGit2.history Fleet.local)
  /\ (Fleet.local ∉ LibGit2.history Fleet.upstream)
  /\ (Git.isAheadOfMaster LibGit2.binding "/fleet/feature" Fleet.start).1 = Resolved true.
Proof.
  split; [by_evaluation|]. split; [by_evaluation|].
  split; [by_decision|]. split; [by_decision|].
  rewrite (isAheadOfMaster_run Fleet.start "/fleet/feature" Fleet.feature
             "refs/heads/feature" Fleet.local "refs/heads/master" Fleet.upstream);
    by_evaluation.
Qed.


(** ** Facts on the model: sync *)

Section SyncFacts.
Import LibGit2.
Implicit Types (s : State Disk) (r : Repository).

(** The run of [sync] on a repository whose HEAD resolves and whose fetch
    succeeds: the outcome is that of the fast-forward-only merge of the
    current branch with "origin/master", on the repository as fetched. *)
Lemma sync_run s p r head_name head_commit r1 x r2 :
  world s !! p = Some r ->
  repository_head r = Resolved (head_name, head_commit) ->
  fetch_each (remotes r) r = (Resolved tt, r1) ->
  merge_branches (shorthand head_name) "origin/master"
    (defaultSignature p (<[p := r1]> (world s))) PREFERENCE_FASTFORWARD_ONLY r1
    = (x, r2) ->
  Git.sync binding p s
  = (match x with Resolved _ => Resolved tt | Rejected e => Rejected e end,
     mkState (<[p := r2]> (world s)) (console s) (calls s ++ sync_calls p)).
Proof.
  intros Hr Hhead Hfetch Hmerge.
  apply (sync_delegates binding p s p (world s)
           {| ref_owner := p; ref_name := head_name; ref_commit := head_commit |}
           (world s) p (world s) (<[p := r1]> (world s))); simpl.
  - unfold repository_open. by rewrite Hr.
  - unfold getCurrentBranch, read_repo. by rewrite Hr, Hhead.
  - unfold repository_open. by rewrite Hr.
  - unfold fetchAll, update_repo. by rewrite Hr, Hfetch.
  - unfold mergeBranches, update_repo.
    by rewrite lookup_insert_eq, Hmerge, insert_insert_eq.
Qed.

Lemma merge_branches_fastforward_only to from signature r
    to_name to_commit from_name from_commit :
  dwim r to = Resolved (to_name, to_commit) ->
  dwim r from = Resolved (from_name, from_commit) ->
  merge_branches to from signature PREFERENCE_FASTFORWARD_ONLY r
  = match Merge_base to_commit from_commit with
    | Rejected e => (Rejected e, r)
    | Resolved base =>
        if bool_decide (base = from_commit) then (Resolved (CommitId to_commit), r)
        else if bool_decide (base = to_commit) then fast_forward to_name from_commit r
        else (Resolved (CommitId to_commit), r)
    end.
Proof.
  intros Hto Hfrom. unfold merge_branches. rewrite Hto, Hfrom.
  destruct (Merge_base to_commit from_commit) as [base|e]; [|done]. simpl.
  by rewrite andb_true_r.
Qed.

Lemma merge_branches_unresolved_from to from signature pref r to_name to_commit e :
  dwim r to = Resolved (to_name, to_commit) ->
  dwim r from = Rejected e ->
  merge_branches to from signature pref r = (Rejected e, r).
Proof. intros Hto Hfrom. unfold merge_branches. by rewrite Hto, Hfrom. Qed.

(** A fast-forward moves the reference and nothing else among the
    references; when its checkout is refused nothing changes. *)
Lemma fast_forward_refs to_name from_commit r x r' :
  fast_forward to_name from_commit r = (x, r') ->
  (x = Resolved (CommitId from_commit)
   /\ refs r' = <[to_name := Direct from_commit]> (refs r))
  \/ (exists e, x = Rejected e /\ r' = r).
Proof.
  unfold fast_forward, Checkout_tree.
  destruct (is_head r to_name); [|intros [= <- <-]; by left].
  destruct (bool_decide _); intros [= <- <-]; [by left|right; by eexists].
Qed.

Lemma Checkout_tree_clean target r :
  status_files r = [] ->
  Checkout_tree target r = (Resolved tt, set_workdir target (set_index target r)).
Proof.
  intros [Hhi Hiw]%status_files_clean. unfold Checkout_tree.
  rewrite <- Hiw, <- Hhi.
  assert (Hconflict : zip3 checkout_conflict (head_tree r) target (head_tree r) = ∅).
  { apply zip3_empty; [done|]. intros path. unfold checkout_conflict.
    destruct (decide _) as [(_ & ? & _)|]; done. }
  assert (Hentry : zip3 checkout_entry (head_tree r) target (head_tree r) = target).
  { apply map_eq. intros path. rewrite lookup_zip3 by done. unfold checkout_entry.
    destruct (decide _) as [Heq|]; [|done]. rewrite <- Heq.
    by destruct (head_tree r !! path). }
  by rewrite Hconflict, Hentry, bool_decide_eq_true_2.
Qed.
End SyncFacts.

(** ** Properties of sync *)

(** C4, as the specification states it, fails on the fleet.  In the
    repository diverged, master and origin/master each have a commit that
    the other has not; [sync] fetches, merges nothing and resolves: no
    error is raised, and master stays where it was. *)
Lemma sync_resolves_when_diverged :
  let out := Git.sync LibGit2.binding "/fleet/diverged" Fleet.start in
  let tip_of (name : string) (d : LibGit2.Disk) :=
    match (LibGit2.getBranch "/fleet/diverged" name d).1 with
    | Resolved ref => Some (LibGit2.ref_commit ref)
    | Rejected _ => None
    end in
  tip_of "master" Fleet.disk = Some Fleet.local
  /\ tip_of "origin/master" (world out.2) = Some Fleet.upstream
  /\ (Fleet.local ∉ LibGit2.history Fleet.upstream)
  /\ (Fleet.upstream ∉ LibGit2.history Fleet.local)
  /\ out.1 = Resolved tt
  /\ ~ (exists e, out.1 = Rejected e)
  /\ tip_of "master" (world out.2) = Some Fleet.local.
Proof.
  intros out tip_of.
  assert (Hout : out.1 = Resolved tt) by by_evaluation.
  split; [by_evaluation|]. split; [by_evaluation|].
  split; [by_decision|]. split; [by_decision|]. split; [exact Hout|].
  split; [|by_evaluation].
  intros [e He]. rewrite Hout in He. discriminate He.
Qed.


(** * Further properties of the code *)

(** ** git.js over any binding: a repository that cannot be opened *)

(** X1.  Every function of git.js opens the repository first: when the
    open is rejected, the function is rejected with the same error, and no
    other call of the binding is made (the world is the one the open
    left). *)
Theorem open_failure_is_the_outcome NG p (s : State (World NG)) e w1 :
  Repository_open NG p (world s) = (Rejected e, w1) ->
  let stopped {A} (out : result A * State (World NG)) :=
    out.1 = Rejected e /\ world out.2 = w1 in
  stopped (Git.getCurrentBranch NG p s)
  /\ stopped (Git.isStatusClean NG p s)
  /\ (forall branchName, stopped (Git.hasBranch NG p branchName s))
  /\ (forall branch, stopped (Git.deleteBranch NG p branch s))
  /\ stopped (Git.sync NG p s)
  /\ (forall message, stopped (Git.commitAll NG p message s))
  /\ stopped (Git.isAheadOfMaster NG p s).
Proof.
  intros Hopen stopped. subst stopped. simpl.
  unfold Git.getCurrentBranch, Git.isStatusClean, Git.hasBranch, Git.deleteBranch,
    Git.sync, Git.commitAll, Git.isAheadOfMaster, Git.getCurrentBranch, Git.getRepo,
    bind, enter, await. simpl. rewrite Hopen. simpl. done.
Qed.

Lemma open_failure_is_the_outcome_witness :
  (Git.sync LibGit2.binding "/fleet/nowhere" Fleet.start).1
  = Rejected (NodeGitError GIT_ENOTFOUND)
  /\ world (Git.sync LibGit2.binding "/fleet/nowhere" Fleet.start).2 = Fleet.disk
  /\ (Git.commitAll LibGit2.binding "/fleet/nowhere" "wip" Fleet.start).1
     = Rejected (NodeGitError GIT_ENOTFOUND).
Proof.
  destruct (open_failure_is_the_outcome LibGit2.binding "/fleet/nowhere" Fleet.start
              (NodeGitError GIT_ENOTFOUND) Fleet.disk)
    as (_ & _ & _ & _ & [Hsync Hworld] & Hcommit & _).
  - by_evaluation.
  - split; [exact Hsync|]. split; [exact Hworld|]. apply Hcommit.
Defined.

(** X2.  [hasBranch] opens the repository outside its try block: it is
    rejected exactly when the open is, and with the same error. *)
Theorem hasBranch_rejects_iff_open_rejects NG p branchName (s : State (World NG)) e :
  (Git.hasBranch NG p branchName s).1 = Rejected e
  <-> (Repository_open NG p (world s)).1 = Rejected e.
Proof.
  unfold Git.hasBranch, Git.getRepo, bind, enter, try_catch, await. simpl.
  destruct (Repository_open NG p (world s)) as [[repo|e0] w1]; simpl;
    [|split; intros [= ->]; done].
  destruct (repo_getBranch NG repo branchName w1) as [[ref|e1] w2]; simpl;
    split; intros H; discriminate H.
Qed.

(** ** The handlers: when a batch resolves *)

Section BatchFacts.
Variable NG : NodeGit.
Variable settle : nat -> nat.

(** A batch followed by its summary resolves exactly when no task is
    rejected. *)
Lemma batch_resolves_iff {A B} (f : B -> Promise (World NG) A) l line s :
  ((Promise_all settle (map f l) ;; green line) s).1 = Resolved tt
  <-> forall e, Rejected e ∉ (dispatch (map f l) s).1.
Proof.
  destruct (Promise_all_outcome settle (map f l) s) as (_ & Hrej & Hres).
  unfold bind. split.
  - intros Hok e He. destruct Hrej as (e' & _ & Hout); [by exists e|].
    destruct (Promise_all settle (map f l) s) as [[vs|e0] s1]; simpl in *; congruence.
  - intros Hno. specialize (Hres Hno).
    by destruct (Promise_all settle (map f l) s) as [[vs|e0] s1]; simpl in *.
Qed.

End BatchFacts.

(** X3.  Once the filtered set is classified, the sync verb resolves
    exactly when the sync of every clean repository resolves. *)
Theorem sync_handler_resolves_iff NG getRepos getStatusGroups settle argv
    (s : State (World NG)) repos s1 groups s2 :
  getRepos (SyncCmd.exclude argv) (SyncCmd.scope argv) s = (Resolved repos, s1) ->
  getStatusGroups repos s1 = (Resolved groups, s2) ->
  (SyncCmd.handler NG getRepos getStatusGroups settle argv s).1 = Resolved tt
  <-> forall e, Rejected e ∉ (dispatch (map (Git.sync NG) (Repos.clean groups)) s2).1.
Proof.
  intros H1 H2. unfold SyncCmd.handler.
  rewrite (bind_resolved _ _ _ _ _ H1), (bind_resolved _ _ _ _ _ H2).
  apply batch_resolves_iff.
Qed.

Lemma sync_handler_resolves_iff_witness :
  (Fleet.sync_cmd {| SyncCmd.exclude := ["diverged"; "offline"]; SyncCmd.scope := None |}
     Fleet.start).1 = Resolved tt.
Proof.
  pose (repos := ["/fleet/behind"; "/fleet/edited"; "/fleet/unborn"; "/fleet/topic";
                  "/fleet/feature"]).
  pose (groups := {| Repos.clean := ["/fleet/behind"; "/fleet/topic"; "/fleet/feature"];
                     Repos.dirty := ["/fleet/edited"; "/fleet/unborn"] |}).
  pose (s2 := mkState Fleet.disk [] (map call_isStatusClean repos)).
  apply (sync_handler_resolves_iff LibGit2.binding
           (Repos.getRepos LibGit2.binding Fleet.catalog)
           (Repos.getStatusGroups LibGit2.binding Fleet.in_order) Fleet.in_order
           {| SyncCmd.exclude := ["diverged"; "offline"]; SyncCmd.scope := None |}
           Fleet.start repos Fleet.start groups s2).
  - by_evaluation.
  - by_evaluation.
  - apply all_resolved_spec. by_evaluation.
Defined.

(** X4.  Once the filtered set is classified, the commit verb resolves
    exactly when the commit of every dirty repository resolves. *)
Theorem commit_handler_resolves_iff NG getRepos getStatusGroups settle argv
    (s : State (World NG)) repos s1 groups s2 :
  getRepos (CommitCmd.exclude argv) (CommitCmd.scope argv) s = (Resolved repos, s1) ->
  getStatusGroups repos s1 = (Resolved groups, s2) ->
  (CommitCmd.handler NG getRepos getStatusGroups settle argv s).1 = Resolved tt
  <-> forall e,
      Rejected e ∉
        (dispatch (map (fun repo => Git.commitAll NG repo (CommitCmd.message argv))
                     (Repos.dirty groups)) s2).1.
Proof.
  intros H1 H2. unfold CommitCmd.handler.
  rewrite (bind_resolved _ _ _ _ _ H1), (bind_resolved _ _ _ _ _ H2).
  apply batch_resolves_iff.
Qed.

Lemma commit_handler_resolves_iff_witness :
  (Fleet.commit_cmd {| CommitCmd.exclude := ["unborn"]; CommitCmd.scope := Some "/fleet/";
                       CommitCmd.message := "wip" |} Fleet.start).1 = Resolved tt.
Proof.
  pose (repos := ["/fleet/behind"; "/fleet/edited"; "/fleet/diverged"; "/fleet/offline";
                  "/fleet/topic"; "/fleet/feature"]).
  pose (groups := {| Repos.clean := ["/fleet/behind"; "/fleet/diverged"; "/fleet/offline";
                                     "/fleet/topic"; "/fleet/feature"];
                     Repos.dirty := ["/fleet/edited"] |}).
  pose (s2 := mkState Fleet.disk [] (map call_isStatusClean repos)).
  apply (commit_handler_resolves_iff LibGit2.binding
           (Repos.getRepos LibGit2.binding Fleet.catalog)
           (Repos.getStatusGroups LibGit2.binding Fleet.in_order) Fleet.in_order
           {| CommitCmd.exclude := ["unborn"]; CommitCmd.scope := Some "/fleet/";
              CommitCmd.message := "wip" |}
           Fleet.start repos Fleet.start groups s2).
  - by_evaluation.
  - by_evaluation.
  - apply all_resolved_spec. by_evaluation.
Defined.



(** ** push: the refspec *)

Lemma string_length_app (a b : string) :
  String.length (a +:+ b) = (String.length a + String.length b)%nat.
Proof. induction a as [|x a IH]; simpl; [done|]. by rewrite IH. Qed.





(** ** The rest of git.js: reading the commit of HEAD *)

(** X8.  [getHeadCommitMessage] does not check the commit it is handed:
    when the binding resolves with no commit for HEAD (a repository without
    any commit), the call of [message] on it fails with a TypeError, not
    with an error of the binding. *)
Theorem getHeadCommitMessage_needs_a_commit NC p
    (s : State (World (checkout_base NC))) repo w1 w2 :
  Repository_open (checkout_base NC) p (world s) = (Resolved repo, w1) ->
  repo_getHeadCommit (checkout_base NC) repo w1 = (Resolved None, w2) ->
  GitHead.getHeadCommitMessage NC p s
  = (Rejected TypeError, mkState w2 (console s) (calls s)).
Proof.
  intros Hopen Hhead.
  unfold GitHead.getHeadCommitMessage, Git.getRepo, bind, await.
  rewrite Hopen. simpl. by rewrite Hhead.
Qed.

Lemma getHeadCommitMessage_needs_a_commit_witness :
  (GitHead.getHeadCommitMessage LibGit2Checkout.binding "/fleet/unborn" Fleet.start).1
  = Rejected TypeError.
Proof.
  rewrite (getHeadCommitMessage_needs_a_commit LibGit2Checkout.binding "/fleet/unborn"
             Fleet.start "/fleet/unborn" Fleet.disk Fleet.disk);
    [reflexivity|by_evaluation|by_evaluation].
Defined.

Section HeadFacts.
Import LibGit2.
Implicit Types (s : State Disk) (r : Repository) (rs : gmap string RefTarget).

Lemma lookup_resolved_here rs n name c :
  rs !! name = Some (Direct c) -> lookup_resolved rs n name = Resolved (name, c).
Proof. intros H. destruct n; unfold lookup_resolved; by rewrite H. Qed.

Lemma lookup_resolved_absent rs n name :
  rs !! name = None -> lookup_resolved rs n name = not_found.
Proof. intros H. destruct n; unfold lookup_resolved; by rewrite H. Qed.

Lemma getHeadCommitMessage_run s p r :
  world s !! p = Some r ->
  (GitHead.getHeadCommitMessage LibGit2Checkout.binding p s).1
  = match lookup_resolved (refs r) MAX_NESTING_LEVEL "HEAD" with
    | Resolved (_, c) => Resolved (c_message c)
    | Rejected _ => Rejected TypeError
    end.
Proof.
  intros Hr.
  unfold GitHead.getHeadCommitMessage, Git.getRepo, bind, await. simpl.
  unfold repository_open. rewrite Hr. simpl.
  unfold getHeadCommit, read_repo. rewrite Hr.
  by destruct (lookup_resolved (refs r) MAX_NESTING_LEVEL "HEAD") as [[n c]|e].
Qed.

Lemma getCurrentBranch_run s p r :
  world s !! p = Some r ->
  (Git.getCurrentBranch binding p s).1
  = match repository_head r with
    | Resolved (name, _) => Resolved (shorthand name)
    | Rejected e => Rejected e
    end.
Proof.
  intros Hr.
  unfold Git.getCurrentBranch, Git.getRepo, bind, enter, await. simpl.
  unfold repository_open. rewrite Hr. simpl.
  unfold getCurrentBranch, read_repo. rewrite Hr.
  by destruct (repository_head r) as [[n c]|e].
Qed.
End HeadFacts.

(** X9.  What [commitAll] writes can be read back: on a repository of the
    model whose HEAD resolves, once [commitAll] has run
    [getHeadCommitMessage] resolves with the message given, and
    [isStatusClean] resolves with true. *)
Theorem commitAll_then_read_back (s : State LibGit2.Disk) p message r name c :
  world s !! p = Some r ->
  LibGit2.lookup_resolved (LibGit2.refs r) LibGit2.MAX_NESTING_LEVEL "HEAD"
    = Resolved (name, c) ->
  let s' := (Git.commitAll LibGit2.binding p message s).2 in
  (GitHead.getHeadCommitMessage LibGit2Checkout.binding p s').1 = Resolved message
  /\ (Git.isStatusClean LibGit2.binding p s').1 = Resolved true.
Proof.
  intros Hr Hhead s'. subst s'.
  rewrite (commitAll_run s p message r name c Hr Hhead). cbn [snd].
  set (c' := LibGit2.mkCommit _ _ _ _ _).
  set (r' := LibGit2.set_refs _ _).
  assert (Hr' : world (mkState (<[p := r']> (world s)) (console s)
                         (calls s ++ [call_commitAll p message])) !! p = Some r')
    by apply lookup_insert_eq.
  assert (Hhead' : LibGit2.lookup_resolved (LibGit2.refs r') LibGit2.MAX_NESTING_LEVEL
                     "HEAD" = Resolved (name, c'))
    by (eapply lookup_resolved_insert, Hhead).
  split.
  - rewrite (getHeadCommitMessage_run _ p r' Hr'). by rewrite Hhead'.
  - rewrite (isStatusClean_run _ p r' Hr'). simpl.
    assert (Hclean : LibGit2.status_files r' = []).
    { apply status_files_clean. split; [|done].
      by rewrite (head_tree_of_HEAD r' name c' Hhead'). }
    by rewrite Hclean.
Qed.

Lemma commitAll_then_read_back_witness :
  let s' := (Git.commitAll LibGit2.binding "/fleet/edited" "wip" Fleet.start).2 in
  (Git.isStatusClean LibGit2.binding "/fleet/edited" Fleet.start).1 = Resolved false
  /\ (GitHead.getHeadCommitMessage LibGit2Checkout.binding "/fleet/edited" s').1
     = Resolved "wip"
  /\ (Git.isStatusClean LibGit2.binding "/fleet/edited" s').1 = Resolved true.
Proof.
  intros s'. split; [by_evaluation|].
  apply (commitAll_then_read_back Fleet.start "/fleet/edited" "wip" Fleet.edited
           "refs/heads/master" Fleet.initial); by_evaluation.
Defined.

(** X10.  [commitAll] writes the index before it looks HEAD up: on a
    repository of the model whose HEAD does not resolve (no commit yet),
    it is rejected with the error of that lookup, and by then the index
    holds the whole working tree. *)
Theorem commitAll_stages_before_it_fails (s : State LibGit2.Disk) p message r e :
  world s !! p = Some r ->
  LibGit2.lookup_resolved (LibGit2.refs r) LibGit2.MAX_NESTING_LEVEL "HEAD"
    = Rejected e ->
  let out := Git.commitAll LibGit2.binding p message s in
  out.1 = Rejected e
  /\ world out.2 = <[p := LibGit2.set_index (LibGit2.workdir r) r]> (world s).
Proof.
  intros Hr Hhead out. subst out.
  unfold Git.commitAll, Git.getRepo, bind, enter, await, peek, ret. simpl.
  unfold LibGit2.repository_open. rewrite Hr. simpl.
  unfold LibGit2.refreshIndex, LibGit2.read_repo. rewrite Hr. simpl.
  unfold LibGit2.addAll, LibGit2.update_repo. rewrite Hr. simpl.
  unfold LibGit2.write, LibGit2.writeTree, LibGit2.nameToId, LibGit2.read_repo.
  repeat first [rewrite lookup_insert_eq | rewrite Hhead | progress simpl].
  done.
Qed.

Lemma commitAll_stages_before_it_fails_witness :
  let out := Git.commitAll LibGit2.binding "/fleet/unborn" "first" Fleet.start in
  out.1 = Rejected (NodeGitError GIT_ENOTFOUND)
  /\ world out.2
     = <["/fleet/unborn" := LibGit2.set_index {[ "README" := "fleet" ]} Fleet.unborn]>
         Fleet.disk.
Proof.
  apply (commitAll_stages_before_it_fails Fleet.start "/fleet/unborn" "first"
           Fleet.unborn (NodeGitError GIT_ENOTFOUND)); by_evaluation.
Defined.

(** X11.  On a repository of the model, [getCurrentBranch] resolves with
    the short name of the branch HEAD is on (the name after "refs/heads/");
    it is rejected with the unborn-branch error when that branch has no
    commit yet; and it resolves with "HEAD" when HEAD is detached. *)
Theorem getCurrentBranch_names_the_branch (s : State LibGit2.Disk) p r :
  world s !! p = Some r ->
  let out := (Git.getCurrentBranch LibGit2.binding p s).1 in
  (forall branch c,
      LibGit2.refs r !! "HEAD" = Some (LibGit2.Symbolic ("refs/heads/" +:+ branch)) ->
      LibGit2.refs r !! ("refs/heads/" +:+ branch) = Some (LibGit2.Direct c) ->
      out = Resolved branch)
  /\ (forall target,
      LibGit2.refs r !! "HEAD" = Some (LibGit2.Symbolic target) ->
      LibGit2.refs r !! target = None ->
      out = Rejected (NodeGitError GIT_EUNBORNBRANCH))
  /\ (forall c,
      LibGit2.refs r !! "HEAD" = Some (LibGit2.Direct c) -> out = Resolved "HEAD").
Proof.
  intros Hr out. subst out. rewrite (getCurrentBranch_run s p r Hr).
  unfold LibGit2.repository_head. split; [|split].
  - intros branch c Hhead Hbranch.
    by rewrite Hhead, (lookup_resolved_here _ _ _ _ Hbranch).
  - intros target Hhead Htarget.
    by rewrite Hhead, (lookup_resolved_absent _ _ _ Htarget).
  - intros c Hhead. by rewrite Hhead.
Qed.

Lemma getCurrentBranch_names_the_branch_witness :
  (Git.getCurrentBranch LibGit2.binding "/fleet/topic" Fleet.start).1 = Resolved "topic"
  /\ (Git.getCurrentBranch LibGit2.binding "/fleet/unborn" Fleet.start).1
     = Rejected (NodeGitError GIT_EUNBORNBRANCH).
Proof.
  split.
  - destruct (getCurrentBranch_names_the_branch Fleet.start "/fleet/topic" Fleet.topic)
      as (Hon & _); [by_evaluation|].
    apply (Hon "topic" Fleet.initial); by_evaluation.
  - destruct (getCurrentBranch_names_the_branch Fleet.start "/fleet/unborn" Fleet.unborn)
      as (_ & Hunborn & _); [by_evaluation|].
    apply (Hunborn "refs/heads/master"); by_evaluation.
Defined.

(** ** What the functions leave alone *)

Section FrameFacts.
Import LibGit2.
Implicit Types (s : State Disk) (r : Repository) (d : Disk).

Lemma update_repo_frame {A} h (f : Repository -> result A * Repository) d q :
  q <> h -> (update_repo h f d).2 !! q = d !! q.
Proof.
  intros Hne. unfold update_repo. destruct (d !! h) as [r|]; [|done].
  destruct (f r) as [x r']. simpl. by rewrite lookup_insert_ne.
Qed.

Lemma sync_frames p : frames p (Git.sync binding p).
Proof.
  intros s q Hne.
  unfold Git.sync, Git.getCurrentBranch, Git.getRepo, bind, enter, await, peek, ret.
  simpl. unfold repository_open.
  destruct (world s !! p) as [r|] eqn:Hr; simpl; [|done].
  unfold getCurrentBranch, read_repo. rewrite Hr.
  destruct (repository_head r) as [[n c]|e]; simpl; [|done].
  rewrite Hr. simpl. unfold fetchAll, update_repo. rewrite Hr.
  destruct (fetch_each (remotes r) r) as [[[]|e] r1]; simpl;
    [|by rewrite lookup_insert_ne].
  unfold mergeBranches, update_repo. rewrite lookup_insert_eq.
  destruct (merge_branches _ _ _ _ r1) as [[o|e] r2]; simpl;
    by rewrite !lookup_insert_ne.
Qed.

Lemma commitAll_frames p message : frames p (Git.commitAll binding p message).
Proof.
  intros s q Hne.
  unfold Git.commitAll, Git.getRepo, bind, enter, await, peek, ret. simpl.
  unfold repository_open.
  destruct (world s !! p) as [r|] eqn:Hr; simpl; [|done].
  unfold refreshIndex, read_repo. rewrite Hr. simpl.
  unfold addAll, update_repo. rewrite Hr. simpl.
  unfold write, writeTree, nameToId, getCommit, read_repo.
  repeat first [rewrite lookup_insert_eq | progress simpl].
  destruct (lookup_resolved _ _ "HEAD") as [[n c]|e]; simpl;
    [|by rewrite lookup_insert_ne].
  repeat first [rewrite lookup_insert_eq | progress simpl].
  destruct (update_terminal _ _ "HEAD") as [[name tip]|e]; simpl;
    [destruct (bool_decide _); simpl|]; by rewrite !lookup_insert_ne.
Qed.

Lemma deleteBranch_frames p branch : frames p (Git.deleteBranch binding p branch).
Proof.
  intros s q Hne.
  unfold Git.deleteBranch, Git.getRepo, bind, enter, await, ret. simpl.
  unfold repository_open.
  destruct (world s !! p) as [r|] eqn:Hr; simpl; [|done].
  unfold getBranch, read_repo. rewrite Hr.
  destruct (dwim r branch) as [[n c]|e]; simpl; [|done].
  unfold branch_delete, update_repo. simpl. rewrite Hr.
  destruct (negb _); simpl; [by rewrite lookup_insert_ne|].
  destruct (is_head r n); simpl; by rewrite lookup_insert_ne.
Qed.

Lemma checkoutBranch_frames p name :
  frames p (GitHead.checkoutBranch LibGit2Checkout.binding p name).
Proof.
  intros s q Hne.
  unfold GitHead.checkoutBranch, Git.getRepo, bind, await. simpl.
  unfold repository_open.
  destruct (world s !! p) as [r|] eqn:Hr; simpl; [|done].
  pose proof (update_repo_frame p _ (world s) q Hne
              : (LibGit2Checkout.checkoutBranch p name (world s)).2 !! q = world s !! q)
    as Hcheckout.
  by destruct (LibGit2Checkout.checkoutBranch p name (world s)) as [x d1].
Qed.

Lemma checkoutNewBranch_frames p name :
  frames p (GitHead.checkoutNewBranch LibGit2Checkout.binding p name).
Proof.
  intros s q Hne.
  unfold GitHead.checkoutNewBranch, Git.getRepo, bind, await. simpl.
  unfold repository_open.
  destruct (world s !! p) as [r|] eqn:Hr; simpl; [|done].
  unfold getHeadCommit, read_repo. rewrite Hr.
  set (commit := match lookup_resolved _ _ "HEAD" with
                 | Resolved (_, c) => Resolved (Some c)
                 | Rejected _ => Resolved None
                 end).
  assert (Hcommit : exists c, commit = Resolved c)
    by (subst commit; destruct (lookup_resolved _ _ "HEAD") as [[n c]|e]; by eexists).
  destruct Hcommit as [c ->]. cbn [fst snd world].
  pose proof (update_repo_frame p _ (world s) q Hne
              : (LibGit2Checkout.createBranch p name c false (world s)).2 !! q
                = world s !! q) as Hcreate.
  destruct (LibGit2Checkout.createBranch p name c false (world s)) as [[ref|e] d1];
    cbn [fst snd world] in *; [|done].
  pose proof (update_repo_frame p _ d1 q Hne
              : (LibGit2Checkout.checkoutBranch p name d1).2 !! q = d1 !! q)
    as Hcheckout.
  destruct (LibGit2Checkout.checkoutBranch p name d1) as [x d2].
  cbn [fst snd world] in *. congruence.
Qed.

(** A batch of tasks that each change their own repository only changes
    the repositories it is dispatched on. *)
Lemma dispatch_frames {A} (f : Repo -> Promise Disk A) l :
  (forall p, frames p (f p)) ->
  forall s q, q ∉ l -> world (dispatch (map f l) s).2 !! q = world s !! q.
Proof.
  intros Hf. induction l as [|p l IH]; intros s q Hq; simpl; [done|].
  apply not_elem_of_cons in Hq as [Hne Hq].
  pose proof (Hf p s q Hne) as Hp.
  destruct (f p s) as [x s1]. simpl in Hp.
  pose proof (IH s1 q Hq) as Hl.
  destruct (dispatch (map f l) s1) as [rs s2]. simpl in *. congruence.
Qed.
End FrameFacts.

(** X12.  On the model, a function of git.js that writes only writes to
    the repository it is called on: [sync], [commitAll], [deleteBranch],
    [checkoutBranch] and [checkoutNewBranch] leave every other repository
    of the disk as it was, whatever their outcome. *)
Theorem writers_touch_one_repository p :
  frames p (Git.sync LibGit2.binding p)
  /\ (forall message, frames p (Git.commitAll LibGit2.binding p message))
  /\ (forall branch, frames p (Git.deleteBranch LibGit2.binding p branch))
  /\ (forall name, frames p (GitHead.checkoutBranch LibGit2Checkout.binding p name))
  /\ (forall name, frames p (GitHead.checkoutNewBranch LibGit2Checkout.binding p name)).
Proof.
  split; [apply sync_frames|]. split; [apply commitAll_frames|].
  split; [apply deleteBranch_frames|].
  split; [apply checkoutBranch_frames|apply checkoutNewBranch_frames].
Qed.

(** X13.  On the model, the queries of git.js change nothing on the disk,
    whether they resolve or not: [getCurrentBranch], [isStatusClean],
    [hasBranch], [isAheadOfMaster] and [getHeadCommitMessage]. *)
Theorem queries_change_nothing (s : State LibGit2.Disk) p :
  world (Git.getCurrentBranch LibGit2.binding p s).2 = world s
  /\ world (Git.isStatusClean LibGit2.binding p s).2 = world s
  /\ (forall branchName, world (Git.hasBranch LibGit2.binding p branchName s).2 = world s)
  /\ world (Git.isAheadOfMaster LibGit2.binding p s).2 = world s
  /\ world (GitHead.getHeadCommitMessage LibGit2Checkout.binding p s).2 = world s.
Proof.
  unfold Git.getCurrentBranch, Git.isStatusClean, Git.hasBranch, Git.isAheadOfMaster,
    GitHead.getHeadCommitMessage, Git.getRepo, Git.sha_of, bind, enter, await, peek,
    try_catch, ret, throw.
  simpl. unfold LibGit2.repository_open.
  destruct (world s !! p) as [r|] eqn:Hr; simpl; [|done].
  unfold LibGit2.getCurrentBranch, LibGit2.getStatus, LibGit2.getBranch,
    LibGit2.getHeadCommit, LibGit2.getMasterCommit, LibGit2.read_repo.
  rewrite Hr. simpl.
  split; [by destruct (LibGit2.repository_head r) as [[n c]|e]|].
  split; [done|].
  split; [intros branchName; by destruct (LibGit2.dwim r branchName) as [[n c]|e]|].
  split.
  - destruct (LibGit2.lookup_resolved _ _ "HEAD") as [[hn hc]|he]; simpl; rewrite Hr;
      destruct (LibGit2.dwim r "master") as [[mn mc]|me]; simpl; try done.
    by destruct (bool_decide _).
  - by destruct (LibGit2.lookup_resolved _ _ "HEAD") as [[hn hc]|he].
Qed.

(** X14.  On the model, once the filtered set is classified, the sync verb
    changes no repository outside the clean group, and the commit verb none
    outside the dirty group, whether the batch resolves or is rejected. *)
Theorem handlers_touch_only_their_group getRepos getStatusGroups settle :
  (forall argv (s : State LibGit2.Disk) repos s1 groups s2,
      getRepos (SyncCmd.exclude argv) (SyncCmd.scope argv) s = (Resolved repos, s1) ->
      getStatusGroups repos s1 = (Resolved groups, s2) ->
      forall q, q ∉ Repos.clean groups ->
        world (SyncCmd.handler LibGit2.binding getRepos getStatusGroups settle argv s).2
          !! q = world s2 !! q)
  /\ (forall argv (s : State LibGit2.Disk) repos s1 groups s2,
      getRepos (CommitCmd.exclude argv) (CommitCmd.scope argv) s = (Resolved repos, s1) ->
      getStatusGroups repos s1 = (Resolved groups, s2) ->
      forall q, q ∉ Repos.dirty groups ->
        world (CommitCmd.handler LibGit2.binding getRepos getStatusGroups settle argv s).2
          !! q = world s2 !! q).
Proof.
  split; intros argv s repos s1 groups s2 H1 H2 q Hq.
  - unfold SyncCmd.handler.
    rewrite (bind_resolved _ _ _ _ _ H1), (bind_resolved _ _ _ _ _ H2).
    destruct (batch_then_report LibGit2.binding settle (Git.sync LibGit2.binding)
                sync_calls (Repos.clean groups)
                (SyncCmd.summary (length (Repos.clean groups))) s2
                (sync_emits LibGit2.binding)) as (_ & Hworld & _).
    rewrite Hworld. by apply dispatch_frames; [apply sync_frames|].
  - unfold CommitCmd.handler.
    rewrite (bind_resolved _ _ _ _ _ H1), (bind_resolved _ _ _ _ _ H2).
    destruct (batch_then_report LibGit2.binding settle
                (fun repo => Git.commitAll LibGit2.binding repo (CommitCmd.message argv))
                (commitAll_calls (CommitCmd.message argv)) (Repos.dirty groups)
                (CommitCmd.summary (length (Repos.dirty groups)) (CommitCmd.message argv))
                s2 (commitAll_emits LibGit2.binding (CommitCmd.message argv)))
      as (_ & Hworld & _).
    rewrite Hworld.
    by apply (dispatch_frames
                (fun repo => Git.commitAll LibGit2.binding repo (CommitCmd.message argv)));
      [intros p; apply commitAll_frames|].
Qed.

Lemma handlers_touch_only_their_group_witness :
  let everything := {| SyncCmd.exclude := []; SyncCmd.scope := None |} in
  (exists e, (Fleet.sync_cmd everything Fleet.start).1 = Rejected e)
  /\ world (Fleet.sync_cmd everything Fleet.start).2 !! "/fleet/edited"
     = Some Fleet.edited.
Proof.
  intros everything. split.
  - exists (NodeGitError GIT_ERROR). by_evaluation.
  - pose (repos := ["/fleet/behind"; "/fleet/edited"; "/fleet/diverged"; "/fleet/offline";
                    "/fleet/unborn"; "/fleet/topic"; "/fleet/feature"]).
    pose (groups := {| Repos.clean := ["/fleet/behind"; "/fleet/diverged";
                                       "/fleet/offline"; "/fleet/topic"; "/fleet/feature"];
                       Repos.dirty := ["/fleet/edited"; "/fleet/unborn"] |}).
    pose (s2 := mkState Fleet.disk [] (map call_isStatusClean repos)).
    destruct (handlers_touch_only_their_group
                (Repos.getRepos LibGit2.binding Fleet.catalog)
                (Repos.getStatusGroups LibGit2.binding Fleet.in_order) Fleet.in_order)
      as [Hsync _].
    unfold Fleet.sync_cmd.
    rewrite (Hsync everything Fleet.start repos Fleet.start groups s2).
    + by_evaluation.
    + by_evaluation.
    + by_evaluation.
    + by_decision.
Defined.

(** ** deleteBranch on the model *)

Section DeleteFacts.
Import LibGit2.
Implicit Types (s : State Disk) (r : Repository).

(** A name that no reference bears, in any form the lookup tries, is not
    found. *)
Lemma dwim_first_absent r name :
  (forall candidate, candidate ∈ dwim_formats name -> refs r !! candidate = None) ->
  dwim r name = Rejected (NodeGitError GIT_ENOTFOUND).
Proof.
  unfold dwim. induction (dwim_formats name) as [|n candidates IH]; intros Habsent.
  - done.
  - unfold dwim_first. fold dwim_first.
    rewrite (lookup_resolved_absent _ _ n) by (apply Habsent; left).
    apply IH. intros candidate Hin. apply Habsent. by right.
Qed.

Lemma deleteBranch_run s p branch r full c :
  world s !! p = Some r ->
  dwim r branch = Resolved (full, c) ->
  let ref := {| ref_owner := p; ref_name := full; ref_commit := c |} in
  Git.deleteBranch binding p branch s
  = (match (branch_delete ref (world s)).1 with
     | Resolved res => Resolved (res =? 0)%Z
     | Rejected e => Rejected e
     end,
     mkState (branch_delete ref (world s)).2 (console s)
       (calls s ++ [call_deleteBranch p branch])).
Proof.
  intros Hr Hdwim ref.
  unfold Git.deleteBranch, Git.getRepo, bind, enter, await, ret. simpl.
  unfold repository_open. rewrite Hr. simpl.
  unfold getBranch, read_repo. rewrite Hr, Hdwim. simpl. fold ref.
  by destruct (branch_delete ref (world s)) as [[res|e] d1].
Qed.
End DeleteFacts.

(** C10, as the claim states it, fails on the model.  In this repository
    no branch v1 exists, but a tag v1 does: the lookup of the name finds the
    tag, [Branch.delete] refuses it, and [deleteBranch] resolves with false
    where the claim has it reject. *)
Lemma deleteBranch_false_for_a_missing_branch :
  let tagged :=
    LibGit2.set_refs (<["refs/tags/v1" := LibGit2.Direct Fleet.initial]>
                        (LibGit2.refs Fleet.feature)) Fleet.feature in
  let s := mkState (<["/fleet/feature" := tagged]> Fleet.disk) [] [] in
  let out := Git.deleteBranch LibGit2.binding "/fleet/feature" "v1" s in
  LibGit2.refs tagged !! "refs/heads/v1" = None
  /\ (LibGit2.getBranch "/fleet/feature" "v1" (world s)).1
     = Resolved {| LibGit2.ref_owner := "/fleet/feature";
                   LibGit2.ref_name := "refs/tags/v1";
                   LibGit2.ref_commit := Fleet.initial |}
  /\ out.1 = Resolved false
  /\ ~ (exists e, out.1 = Rejected e)
  /\ world out.2 = world s.
Proof.
  intros tagged s out.
  assert (Hout : out.1 = Resolved false) by by_evaluation.
  split; [by_evaluation|]. split; [by_evaluation|]. split; [exact Hout|].
  split; [|by_evaluation].
  intros [e He]. rewrite Hout in He. discriminate He.
Qed.

(** C10, amended.  Over any binding, once the repository is open:
    [deleteBranch] rejects with the error of the lookup when the lookup of
    the name rejects; when the lookup resolves, [Branch.delete] decides: a
    rejection is passed on, and a result code [res] makes [deleteBranch]
    resolve with true exactly when [res] is 0.  On the model, where the
    name is looked up among all references: when no reference bears the
    name in any of the forms the lookup tries, [deleteBranch] rejects with
    the not-found error; when the name resolves to a reference that is
    neither a local nor a remote-tracking branch (a tag), it resolves with
    false; in both cases the disk stays as it was. *)
Theorem deleteBranch_outcome :
  (forall NG repoPath branch (s : State (World NG)) repo w1,
      Repository_open NG repoPath (world s) = (Resolved repo, w1) ->
      (forall e w2,
          repo_getBranch NG repo branch w1 = (Rejected e, w2) ->
          (Git.deleteBranch NG repoPath branch s).1 = Rejected e)
      /\ (forall ref w2 e w3,
          repo_getBranch NG repo branch w1 = (Resolved ref, w2) ->
          Branch_delete NG ref w2 = (Rejected e, w3) ->
          (Git.deleteBranch NG repoPath branch s).1 = Rejected e)
      /\ (forall ref w2 res w3,
          repo_getBranch NG repo branch w1 = (Resolved ref, w2) ->
          Branch_delete NG ref w2 = (Resolved res, w3) ->
          exists b,
            (Git.deleteBranch NG repoPath branch s).1 = Resolved b
            /\ (b = true <-> res = 0%Z)))
  /\ (forall (s : State LibGit2.Disk) p branch r,
      world s !! p = Some r ->
      let out := Git.deleteBranch LibGit2.binding p branch s in
      ((forall candidate,
           candidate ∈ LibGit2.dwim_formats branch ->
           LibGit2.refs r !! candidate = None) ->
       out.1 = Rejected (NodeGitError GIT_ENOTFOUND) /\ world out.2 = world s)
      /\ (forall e,
          LibGit2.dwim r branch = Rejected e ->
          out.1 = Rejected e /\ world out.2 = world s)
      /\ (forall full c,
          LibGit2.dwim r branch = Resolved (full, c) ->
          LibGit2.is_branch full || LibGit2.is_remote full = false ->
          out.1 = Resolved false /\ world out.2 = world s)).
Proof.
  split.
  - intros NG repoPath branch s repo w1 Hopen.
    unfold Git.deleteBranch, Git.getRepo, bind, enter, await. simpl.
    rewrite Hopen. simpl.
    split; [|split].
    + intros e w2 Hget. by rewrite Hget.
    + intros ref w2 e w3 Hget Hdel. rewrite Hget. simpl. by rewrite Hdel.
    + intros ref w2 res w3 Hget Hdel. rewrite Hget. simpl. rewrite Hdel. simpl.
      exists (res =? 0)%Z. split; [done|]. apply Z.eqb_eq.
  - intros s p branch r Hr out.
    assert (Hrejected : forall e,
               LibGit2.dwim r branch = Rejected e ->
               out.1 = Rejected e /\ world out.2 = world s).
    { intros e Hdwim. subst out.
      unfold Git.deleteBranch, Git.getRepo, bind, enter, await, ret. simpl.
      unfold LibGit2.repository_open. rewrite Hr. simpl.
      unfold LibGit2.getBranch, LibGit2.read_repo. by rewrite Hr, Hdwim. }
    split; [|split; [exact Hrejected|]].
    + intros Habsent. apply Hrejected. by apply dwim_first_absent.
    + intros full c Hdwim Hkind. subst out.
      rewrite (deleteBranch_run s p branch r full c Hr Hdwim).
      unfold LibGit2.branch_delete, LibGit2.update_repo. simpl.
      rewrite Hr, Hkind. simpl. split; [done|]. by apply insert_id.
Qed.

Lemma deleteBranch_outcome_witness :
  (Git.deleteBranch LibGit2.binding "/fleet/topic" "master" Fleet.start).1
  = Rejected (NodeGitError GIT_ENOTFOUND)
  /\ (Git.deleteBranch LibGit2.binding "/fleet/feature" "feature" Fleet.start).1
     = Resolved false
  /\ (Git.deleteBranch LibGit2.binding "/fleet/feature" "master" Fleet.start).1
     = Resolved true.
Proof.
  destruct deleteBranch_outcome as [Hany Hmodel].
  split; [|split].
  - destruct (Hmodel Fleet.start "/fleet/topic" "master" Fleet.topic) as (Hmissing & _).
    + by_evaluation.
    + apply Hmissing. intros candidate Hin.
      repeat (apply elem_of_cons in Hin as [->|Hin]; [by_evaluation|]).
      inversion Hin.
  - destruct (Hany LibGit2.binding "/fleet/feature" "feature" Fleet.start
                "/fleet/feature" Fleet.disk) as (_ & _ & Hfound).
    + by_evaluation.
    + destruct (Hfound
                  {| LibGit2.ref_owner := "/fleet/feature";
                     LibGit2.ref_name := "refs/heads/feature";
                     LibGit2.ref_commit := Fleet.local |}
                  Fleet.disk (-1)%Z (<["/fleet/feature" := Fleet.feature]> Fleet.disk))
        as (b & Hb & Hiff).
      * by_evaluation.
      * by_evaluation.
      * rewrite Hb. f_equal. destruct b; [|done].
        by destruct (proj1 Hiff eq_refl).
  - destruct (Hany LibGit2.binding "/fleet/feature" "master" Fleet.start
                "/fleet/feature" Fleet.disk) as (_ & _ & Hfound).
    + by_evaluation.
    + destruct (Hfound
                  {| LibGit2.ref_owner := "/fleet/feature";
                     LibGit2.ref_name := "refs/heads/master";
                     LibGit2.ref_commit := Fleet.upstream |}
                  Fleet.disk 0%Z
                  (<["/fleet/feature" :=
                       LibGit2.set_refs
                         (delete "refs/heads/master" (LibGit2.refs Fleet.feature))
                         Fleet.feature]> Fleet.disk))
        as (b & Hb & Hiff).
      * by_evaluation.
      * by_evaluation.
      * rewrite Hb. f_equal. by apply Hiff.
Defined.

(** X15.  On the model, [deleteBranch] never deletes the branch HEAD is
    on: it resolves with false and the disk stays as it was.  For another
    local or remote-tracking branch it resolves with true, the reference
    found is removed from the repository, and nothing else changes. *)
Theorem deleteBranch_spares_the_current_branch (s : State LibGit2.Disk) p branch r full c :
  world s !! p = Some r ->
  LibGit2.dwim r branch = Resolved (full, c) ->
  let out := Git.deleteBranch LibGit2.binding p branch s in
  (LibGit2.is_head r full = true ->
   out.1 = Resolved false /\ world out.2 = world s)
  /\ (LibGit2.is_head r full = false ->
      LibGit2.is_branch full || LibGit2.is_remote full = true ->
      out.1 = Resolved true
      /\ world out.2
         = <[p := LibGit2.set_refs (delete full (LibGit2.refs r)) r]> (world s)).
Proof.
  intros Hr Hdwim out. subst out.
  rewrite (deleteBranch_run s p branch r full c Hr Hdwim).
  unfold LibGit2.branch_delete, LibGit2.update_repo. simpl. rewrite Hr.
  split.
  - intros Hhead. rewrite Hhead.
    assert (Hbranch : LibGit2.is_branch full = true).
    { unfold LibGit2.is_head in Hhead. by apply andb_true_iff in Hhead as [? _]. }
    rewrite Hbranch. simpl. split; [done|]. by apply insert_id.
  - intros Hhead Hkind. by rewrite Hhead, Hkind.
Qed.

Lemma deleteBranch_spares_the_current_branch_witness :
  let current := Git.deleteBranch LibGit2.binding "/fleet/feature" "feature" Fleet.start in
  let other := Git.deleteBranch LibGit2.binding "/fleet/feature" "master" Fleet.start in
  (current.1 = Resolved false /\ world current.2 = Fleet.disk)
  /\ (other.1 = Resolved true
      /\ world other.2
         = <["/fleet/feature" :=
               LibGit2.set_refs (delete "refs/heads/master" (LibGit2.refs Fleet.feature))
                 Fleet.feature]> Fleet.disk).
Proof.
  intros current other. split.
  - destruct (deleteBranch_spares_the_current_branch Fleet.start "/fleet/feature"
                "feature" Fleet.feature "refs/heads/feature" Fleet.local)
      as [Hcurrent _]; [by_evaluation|by_evaluation|].
    apply Hcurrent. by_evaluation.
  - destruct (deleteBranch_spares_the_current_branch Fleet.start "/fleet/feature"
                "master" Fleet.feature "refs/heads/master" Fleet.upstream)
      as [_ Hother]; [by_evaluation|by_evaluation|].
    apply Hother; by_evaluation.
Defined.

(** ** isAheadOfMaster on the model *)

(** X16.  On the model, [isAheadOfMaster] only compares two commits: when
    HEAD and master both resolve it resolves with false if they are on the
    same commit and with true otherwise, whatever their histories.  When
    master does not resolve it is rejected with the error of that lookup;
    when master resolves and HEAD has no commit it fails with a
    TypeError. *)
Theorem isAheadOfMaster_compares_two_commits (s : State LibGit2.Disk) p r :
  world s !! p = Some r ->
  let out := (Git.isAheadOfMaster LibGit2.binding p s).1 in
  let head := LibGit2.lookup_resolved (LibGit2.refs r) LibGit2.MAX_NESTING_LEVEL "HEAD" in
  (forall head_name head_commit master_name master_commit,
      head = Resolved (head_name, head_commit) ->
      LibGit2.dwim r "master" = Resolved (master_name, master_commit) ->
      out = Resolved (negb (bool_decide (head_commit = master_commit))))
  /\ (forall e, LibGit2.dwim r "master" = Rejected e -> out = Rejected e)
  /\ (forall e master_name master_commit,
      head = Rejected e ->
      LibGit2.dwim r "master" = Resolved (master_name, master_commit) ->
      out = Rejected TypeError).
Proof.
  intros Hr out head. subst out head. split; [|split].
  - intros head_name head_commit master_name master_commit Hhead Hmaster.
    by eapply isAheadOfMaster_run.
  - intros e Hmaster.
    unfold Git.isAheadOfMaster, Git.getRepo, bind, enter, await, peek, ret. simpl.
    unfold LibGit2.repository_open. rewrite Hr. simpl.
    unfold LibGit2.getHeadCommit, LibGit2.getMasterCommit, LibGit2.read_repo.
    rewrite Hr.
    destruct (LibGit2.lookup_resolved _ _ "HEAD") as [[hn hc]|he]; simpl;
      by rewrite Hr, Hmaster.
  - intros e master_name master_commit Hhead Hmaster.
    unfold Git.isAheadOfMaster, Git.getRepo, bind, enter, await, peek, ret. simpl.
    unfold LibGit2.repository_open. rewrite Hr. simpl.
    unfold LibGit2.getHeadCommit, LibGit2.getMasterCommit, LibGit2.read_repo.
    rewrite Hr, Hhead. simpl. by rewrite Hr, Hmaster.
Qed.

Lemma isAheadOfMaster_compares_two_commits_witness :
  (Git.isAheadOfMaster LibGit2.binding "/fleet/behind" Fleet.start).1 = Resolved false
  /\ (Git.isAheadOfMaster LibGit2.binding "/fleet/topic" Fleet.start).1
     = Rejected (NodeGitError GIT_ENOTFOUND)
  /\ (Git.isAheadOfMaster LibGit2.binding "/fleet/unborn" Fleet.start).1
     = Rejected (NodeGitError GIT_ENOTFOUND).
Proof.
  split; [|split].
  - destruct (isAheadOfMaster_compares_two_commits Fleet.start "/fleet/behind" Fleet.behind)
      as (Hboth & _); [by_evaluation|].
    rewrite (Hboth "refs/heads/master" Fleet.initial "refs/heads/master" Fleet.initial);
      by_evaluation.
  - destruct (isAheadOfMaster_compares_two_commits Fleet.start "/fleet/topic" Fleet.topic)
      as (_ & Hmaster & _); [by_evaluation|].
    apply Hmaster. by_evaluation.
  - destruct (isAheadOfMaster_compares_two_commits Fleet.start "/fleet/unborn" Fleet.unborn)
      as (_ & Hmaster & _); [by_evaluation|].
    apply Hmaster. by_evaluation.
Defined.

(** ** sync on the model: the ways it stops early *)

Section FetchFacts.
Import LibGit2.
Implicit Types (s : State Disk) (r : Repository).

Lemma is_remote_tracking remote branch :
  is_remote ("refs/remotes/" +:+ remote +:+ "/" +:+ branch) = true.
Proof.
  unfold is_remote. simpl.
  match goal with |- String.prefix _ ?rest = true => by destruct rest end.
Qed.

Lemma tracking_refs_local remote heads rs name :
  is_remote name = false -> tracking_refs remote heads rs !! name = rs !! name.
Proof.
  intros Hname. unfold tracking_refs.
  apply (map_fold_weak_ind (fun acc (_ : gmap string Commit) => acc !! name = rs !! name));
    [done|].
  intros branch c m acc _ IH. rewrite lookup_insert_ne; [done|].
  intros <-. by rewrite is_remote_tracking in Hname.
Qed.

(** A fetch, complete or not, writes remote-tracking references only. *)
Lemma fetch_each_local rems r x r1 :
  fetch_each rems r = (x, r1) ->
  index r1 = index r /\ workdir r1 = workdir r
  /\ forall name, is_remote name = false -> refs r1 !! name = refs r !! name.
Proof.
  revert r. induction rems as [|[remote rem] rems IH]; intros r.
  - unfold fetch_each. by intros [= <- <-].
  - unfold fetch_each. fold fetch_each.
    destruct (remote_online rem); [|by intros [= <- <-]].
    intros Hrest. apply IH in Hrest as (Hi & Hw & Hrefs).
    split; [done|]. split; [done|].
    intros name Hname. rewrite (Hrefs name Hname). simpl.
    by apply tracking_refs_local.
Qed.
End FetchFacts.

(** X17.  On the model, [sync] asks for the current branch before it
    fetches: on a repository whose HEAD does not resolve (no commit yet) it
    is rejected with the error of that lookup and the disk stays as it
    was. *)
Theorem sync_needs_a_current_branch (s : State LibGit2.Disk) p r e :
  world s !! p = Some r ->
  LibGit2.repository_head r = Rejected e ->
  (Git.sync LibGit2.binding p s).1 = Rejected e
  /\ world (Git.sync LibGit2.binding p s).2 = world s.
Proof.
  intros Hr Hhead.
  unfold Git.sync, Git.getCurrentBranch, Git.getRepo, bind, enter, await, peek, ret.
  simpl. unfold LibGit2.repository_open. rewrite Hr. simpl.
  unfold LibGit2.getCurrentBranch, LibGit2.read_repo. by rewrite Hr, Hhead.
Qed.

Lemma sync_needs_a_current_branch_witness :
  (Git.sync LibGit2.binding "/fleet/unborn" Fleet.start).1
  = Rejected (NodeGitError GIT_EUNBORNBRANCH)
  /\ world (Git.sync LibGit2.binding "/fleet/unborn" Fleet.start).2 = Fleet.disk.
Proof.
  apply (sync_needs_a_current_branch Fleet.start "/fleet/unborn" Fleet.unborn);
    by_evaluation.
Defined.

(** X18.  On the model, when the fetch fails [sync] is rejected with the
    error of the fetch and merges nothing: the index, the working tree and
    every reference that is not a remote-tracking one are as they were
    (the remotes fetched before the failing one have updated theirs). *)
Theorem sync_fetch_failure_merges_nothing
    (s : State LibGit2.Disk) p r head_name head_commit e r1 :
  world s !! p = Some r ->
  LibGit2.repository_head r = Resolved (head_name, head_commit) ->
  LibGit2.fetch_each (LibGit2.remotes r) r = (Rejected e, r1) ->
  let out := Git.sync LibGit2.binding p s in
  out.1 = Rejected e
  /\ world out.2 = <[p := r1]> (world s)
  /\ LibGit2.index r1 = LibGit2.index r
  /\ LibGit2.workdir r1 = LibGit2.workdir r
  /\ forall name,
      LibGit2.is_remote name = false -> LibGit2.refs r1 !! name = LibGit2.refs r !! name.
Proof.
  intros Hr Hhead Hfetch out. subst out.
  split; [|split; [|by eapply fetch_each_local]].
  - unfold Git.sync, Git.getCurrentBranch, Git.getRepo, bind, enter, await, peek, ret.
    simpl. unfold LibGit2.repository_open. rewrite Hr. simpl.
    unfold LibGit2.getCurrentBranch, LibGit2.read_repo. rewrite Hr, Hhead. simpl.
    rewrite Hr. simpl. unfold LibGit2.fetchAll, LibGit2.update_repo.
    by rewrite Hr, Hfetch.
  - unfold Git.sync, Git.getCurrentBranch, Git.getRepo, bind, enter, await, peek, ret.
    simpl. unfold LibGit2.repository_open. rewrite Hr. simpl.
    unfold LibGit2.getCurrentBranch, LibGit2.read_repo. rewrite Hr, Hhead. simpl.
    rewrite Hr. simpl. unfold LibGit2.fetchAll, LibGit2.update_repo.
    by rewrite Hr, Hfetch.
Qed.

Lemma sync_fetch_failure_merges_nothing_witness :
  (Git.sync LibGit2.binding "/fleet/offline" Fleet.start).1
  = Rejected (NodeGitError GIT_ERROR)
  /\ world (Git.sync LibGit2.binding "/fleet/offline" Fleet.start).2
     = <["/fleet/offline" := Fleet.offline]> Fleet.disk.
Proof.
  destruct (sync_fetch_failure_merges_nothing Fleet.start "/fleet/offline" Fleet.offline
              "refs/heads/master" Fleet.initial (NodeGitError GIT_ERROR) Fleet.offline)
    as (Hout & Hworld & _).
  - by_evaluation.
  - by_evaluation.
  - by_evaluation.
  - split; [exact Hout|exact Hworld].
Defined.

(** ** The checkout functions on the model *)

Section CheckoutFacts.
Import LibGit2.
Implicit Types (s : State Disk) (r : Repository) (rs : gmap string RefTarget).

(** The reference a shorthand resolves to is bound to the commit found. *)
Lemma dwim_first_direct rs candidates full c :
  dwim_first rs candidates = Resolved (full, c) -> rs !! full = Some (Direct c).
Proof.
  induction candidates as [|n candidates IH]; simpl; [done|].
  destruct (lookup_resolved rs MAX_NESTING_LEVEL n) as [x|e] eqn:Hn.
  - intros [= ->]. by eapply lookup_resolved_direct.
  - destruct e as [[]| |]; done.
Qed.

Lemma is_branch_not_HEAD full : is_branch full = true -> full <> "HEAD".
Proof. by intros Hb ->. Qed.

Lemma is_branch_heads b : is_branch ("refs/heads/" +:+ b) = true.
Proof.
  unfold is_branch. simpl.
  match goal with |- String.prefix _ ?rest = true => by destruct rest end.
Qed.

Lemma shorthand_heads b : shorthand ("refs/heads/" +:+ b) = b.
Proof. done. Qed.

(** The branch HEAD is on once HEAD has been set on [full]. *)
Lemma repository_head_set rs full c :
  is_branch full = true ->
  rs !! full = Some (Direct c) ->
  forall r, refs r = <["HEAD" := Symbolic full]> rs ->
  repository_head r = Resolved (full, c).
Proof.
  intros Hb Hfull r Hrefs. unfold repository_head.
  rewrite Hrefs, lookup_insert_eq.
  rewrite (lookup_resolved_here _ _ full c); [done|].
  rewrite lookup_insert_ne; [done|]. intros Heq. by apply (is_branch_not_HEAD full).
Qed.

(** A new reference does not change what the others resolve to. *)
Lemma lookup_resolved_insert_fresh rs n name x k v :
  rs !! k = None ->
  lookup_resolved rs n name = Resolved x ->
  lookup_resolved (<[k := v]> rs) n name = Resolved x.
Proof.
  intros Hk. revert name.
  induction n as [|n IH]; intros name; unfold lookup_resolved; fold lookup_resolved;
    (destruct (decide (name = k)) as [->|Hne];
     [by rewrite Hk|rewrite lookup_insert_ne by done]).
  - done.
  - destruct (rs !! name) as [[c0|target]|]; [done|apply IH|done].
Qed.

(** Checking out the tree HEAD already has meets no conflict. *)
Lemma Checkout_tree_same r :
  Checkout_tree (head_tree r) r
  = (Resolved tt,
     set_workdir (zip3 checkout_entry (head_tree r) (head_tree r) (workdir r))
       (set_index (zip3 checkout_entry (head_tree r) (head_tree r) (index r)) r)).
Proof.
  unfold Checkout_tree. rewrite bool_decide_eq_true_2; [done|].
  split; (apply zip3_empty; [done|]); intros path; unfold checkout_conflict;
    by destruct (decide _) as [[? _]|].
Qed.

Lemma checkoutBranch_run s p name r :
  world s !! p = Some r ->
  GitHead.checkoutBranch LibGit2Checkout.binding p name s
  = let out :=
      match dwim r name with
      | Rejected e => (Rejected e, r)
      | Resolved (full, c) =>
          if is_branch full then LibGit2Checkout.checkout_ref full c r
          else (Resolved tt, r)
      end in
    (out.1, mkState (<[p := out.2]> (world s)) (console s) (calls s)).
Proof.
  intros Hr.
  unfold GitHead.checkoutBranch, Git.getRepo, bind, await. simpl.
  unfold repository_open. rewrite Hr. simpl.
  unfold LibGit2Checkout.checkoutBranch, update_repo. rewrite Hr.
  by destruct (match dwim r name with Rejected e => _ | Resolved x => _ end).
Qed.
End CheckoutFacts.

(** X19.  On the model, [checkoutBranch] changes nothing when it does not
    switch: the name that does not resolve is rejected with the lookup
    error; a name that resolves to a reference that is not a local branch
    (a tag, a remote-tracking branch) is not checked out, and the call
    resolves all the same; and whenever the call is rejected the disk is
    as it was. *)
Theorem checkoutBranch_stays (s : State LibGit2.Disk) p name r :
  world s !! p = Some r ->
  let out := GitHead.checkoutBranch LibGit2Checkout.binding p name s in
  (forall e, LibGit2.dwim r name = Rejected e -> out.1 = Rejected e)
  /\ (forall full c,
      LibGit2.dwim r name = Resolved (full, c) ->
      LibGit2.is_branch full = false ->
      out.1 = Resolved tt /\ world out.2 = world s)
  /\ (forall e, out.1 = Rejected e -> world out.2 = world s).
Proof.
  intros Hr out. subst out. rewrite (checkoutBranch_run s p name r Hr).
  cbn [fst snd world]. split; [|split].
  - intros e Hdwim. by rewrite Hdwim.
  - intros full c Hdwim Hb. rewrite Hdwim, Hb. split; [done|]. exact (insert_id (world s) p r Hr).
  - intros e.
    destruct (LibGit2.dwim r name) as [[full c]|e0]; [|intros _; exact (insert_id (world s) p r Hr)].
    destruct (LibGit2.is_branch full); [|done].
    unfold LibGit2Checkout.checkout_ref, LibGit2.Checkout_tree.
    destruct (bool_decide _); [done|]. intros _. exact (insert_id (world s) p r Hr).
Qed.

Lemma checkoutBranch_stays_witness :
  let tagged :=
    LibGit2.set_refs (<["refs/tags/v1" := LibGit2.Direct Fleet.initial]>
                        (LibGit2.refs Fleet.feature)) Fleet.feature in
  let s := mkState (<["/fleet/feature" := tagged]> Fleet.disk) [] [] in
  let out := GitHead.checkoutBranch LibGit2Checkout.binding "/fleet/feature" "v1" s in
  out.1 = Resolved tt /\ world out.2 = world s.
Proof.
  intros tagged s out.
  destruct (checkoutBranch_stays s "/fleet/feature" "v1" tagged) as (_ & Hstays & _);
    [by_evaluation|].
  apply (Hstays "refs/tags/v1" Fleet.initial); by_evaluation.
Defined.

(** X20.  On the model, on a clean repository [checkoutBranch] switches to
    the local branch the name resolves to: HEAD is set on that branch, the
    index and the working tree take the tree of its commit, and afterwards
    [getCurrentBranch] resolves with the short name of the branch and
    [isStatusClean] with true. *)
Theorem checkoutBranch_switches (s : State LibGit2.Disk) p name r full c :
  world s !! p = Some r ->
  LibGit2.dwim r name = Resolved (full, c) ->
  LibGit2.is_branch full = true ->
  LibGit2.status_files r = [] ->
  let out := GitHead.checkoutBranch LibGit2Checkout.binding p name s in
  let r' :=
    LibGit2.set_refs (<["HEAD" := LibGit2.Symbolic full]> (LibGit2.refs r))
      (LibGit2.set_workdir (LibGit2.c_tree c) (LibGit2.set_index (LibGit2.c_tree c) r)) in
  out.1 = Resolved tt
  /\ world out.2 = <[p := r']> (world s)
  /\ (Git.getCurrentBranch LibGit2.binding p out.2).1 = Resolved (LibGit2.shorthand full)
  /\ (Git.isStatusClean LibGit2.binding p out.2).1 = Resolved true.
Proof.
  intros Hr Hdwim Hb Hclean out r'. subst out.
  rewrite (checkoutBranch_run s p name r Hr). rewrite Hdwim, Hb.
  unfold LibGit2Checkout.checkout_ref. rewrite (Checkout_tree_clean _ _ Hclean).
  cbn [fst snd world]. fold r'.
  assert (Hr' : world (mkState (<[p := r']> (world s)) (console s) (calls s)) !! p
                = Some r') by apply lookup_insert_eq.
  assert (Hhead : LibGit2.repository_head r' = Resolved (full, c)).
  { apply (repository_head_set (LibGit2.refs r)); [done| |done].
    by apply (dwim_first_direct _ _ _ _ Hdwim). }
  split; [done|]. split; [done|]. split.
  - etransitivity; [exact (getCurrentBranch_run _ p r' Hr')|]. by rewrite Hhead.
  - assert (Hst : LibGit2.status_files r' = []).
    { apply status_files_clean. unfold LibGit2.head_tree. by rewrite Hhead. }
    etransitivity; [exact (f_equal fst (isStatusClean_run _ p r' Hr'))|].
    cbn [fst]. by rewrite Hst.
Qed.

Lemma checkoutBranch_switches_witness :
  let out := GitHead.checkoutBranch LibGit2Checkout.binding "/fleet/feature" "master"
               Fleet.start in
  (Git.getCurrentBranch LibGit2.binding "/fleet/feature" Fleet.start).1
  = Resolved "feature"
  /\ out.1 = Resolved tt
  /\ (Git.getCurrentBranch LibGit2.binding "/fleet/feature" out.2).1 = Resolved "master".
Proof.
  intros out. split; [by_evaluation|].
  destruct (checkoutBranch_switches Fleet.start "/fleet/feature" "master" Fleet.feature
              "refs/heads/master" Fleet.upstream) as (Hout & _ & Hbranch & _).
  - by_evaluation.
  - by_evaluation.
  - by_evaluation.
  - by_evaluation.
  - split; [exact Hout|exact Hbranch].
Defined.

Section NewBranchFacts.
Import LibGit2.
Implicit Types (s : State Disk) (r : Repository) (rs : gmap string RefTarget).

Lemma plain_name_nonempty b : plain_name b = true -> b <> "".
Proof. by destruct b. Qed.

Lemma string_app_length_neq (a a' b : string) :
  String.length a <> String.length a' -> a +:+ b <> a' +:+ b.
Proof.
  intros Hne H. apply (f_equal String.length) in H.
  rewrite !string_length_app in H. lia.
Qed.

Lemma heads_not_short b : b <> "refs/heads/" +:+ b.
Proof.
  intros H. apply (f_equal String.length) in H.
  rewrite string_length_app in H. simpl in H. lia.
Qed.

Lemma heads_not_refs b : "refs/" +:+ b <> "refs/heads/" +:+ b.
Proof. by apply string_app_length_neq. Qed.

Lemma heads_not_tags b : "refs/tags/" +:+ b <> "refs/heads/" +:+ b.
Proof. by apply string_app_length_neq. Qed.

Lemma dwim_formats_named b :
  b <> "" ->
  dwim_formats b
  = [b; "refs/" +:+ b; "refs/tags/" +:+ b; "refs/heads/" +:+ b;
     "refs/remotes/" +:+ b; "refs/remotes/" +:+ b +:+ "/HEAD"].
Proof. by destruct b. Qed.

Lemma dwim_first_skip rs n candidates :
  rs !! n = None -> dwim_first rs (n :: candidates) = dwim_first rs candidates.
Proof.
  intros Hn. unfold dwim_first at 1. fold dwim_first.
  by rewrite (lookup_resolved_absent _ _ _ Hn).
Qed.

Lemma dwim_first_here rs n c candidates :
  rs !! n = Some (Direct c) -> dwim_first rs (n :: candidates) = Resolved (n, c).
Proof.
  intros Hn. unfold dwim_first at 1. fold dwim_first.
  by rewrite (lookup_resolved_here _ _ _ _ Hn).
Qed.

(** Where a new branch is found by its short name: no reference of the
    same name, in "refs/" or among the tags comes first. *)
Lemma dwim_new_branch r b c :
  b <> "" ->
  refs r !! b = None ->
  refs r !! ("refs/" +:+ b) = None ->
  refs r !! ("refs/tags/" +:+ b) = None ->
  dwim (set_refs (<["refs/heads/" +:+ b := Direct c]> (refs r)) r) b
  = Resolved ("refs/heads/" +:+ b, c).
Proof.
  intros Hne H1 H2 H3. unfold dwim. rewrite (dwim_formats_named b Hne).
  cbn [refs set_refs].
  rewrite dwim_first_skip by (rewrite lookup_insert_ne; [done|apply not_eq_sym, heads_not_short]).
  rewrite dwim_first_skip by (rewrite lookup_insert_ne; [done|apply not_eq_sym, heads_not_refs]).
  rewrite dwim_first_skip by (rewrite lookup_insert_ne; [done|apply not_eq_sym, heads_not_tags]).
  apply dwim_first_here, lookup_insert_eq.
Qed.

End NewBranchFacts.

(** X21.  On the model, [checkoutNewBranch] with a plain name that no
    reference bears yet (as a branch, as a tag, in "refs/" or by itself)
    creates the branch on the commit of HEAD and switches to it: it
    resolves, HEAD is set on the new branch, which is on the commit HEAD
    was on, and afterwards [getCurrentBranch] resolves with the new
    name. *)
Theorem checkoutNewBranch_switches (s : State LibGit2.Disk) p b r head_name c :
  world s !! p = Some r ->
  LibGit2.lookup_resolved (LibGit2.refs r) LibGit2.MAX_NESTING_LEVEL "HEAD"
    = Resolved (head_name, c) ->
  plain_name b = true ->
  LibGit2.refs r !! b = None ->
  LibGit2.refs r !! ("refs/" +:+ b) = None ->
  LibGit2.refs r !! ("refs/tags/" +:+ b) = None ->
  LibGit2.refs r !! ("refs/heads/" +:+ b) = None ->
  let out := GitHead.checkoutNewBranch LibGit2Checkout.binding p b s in
  out.1 = Resolved tt
  /\ (exists r',
        world out.2 = <[p := r']> (world s)
        /\ LibGit2.refs r'
           = <["HEAD" := LibGit2.Symbolic ("refs/heads/" +:+ b)]>
               (<["refs/heads/" +:+ b := LibGit2.Direct c]> (LibGit2.refs r)))
  /\ (Git.getCurrentBranch LibGit2.binding p out.2).1 = Resolved b.
Proof.
  intros Hr Hhead Hplain Hshort Hrefs Htags Hheads out.
  apply plain_name_nonempty in Hplain.
  set (full := "refs/heads/" +:+ b) in *.
  set (r1 := LibGit2.set_refs (<[full := LibGit2.Direct c]> (LibGit2.refs r)) r).
  assert (Hhead1 : LibGit2.lookup_resolved (LibGit2.refs r1) LibGit2.MAX_NESTING_LEVEL
                     "HEAD" = Resolved (head_name, c))
    by (by apply lookup_resolved_insert_fresh).
  assert (Htree : LibGit2.head_tree r1 = LibGit2.c_tree c)
    by (by eapply head_tree_of_HEAD).
  set (r2 := (LibGit2.Checkout_tree (LibGit2.head_tree r1) r1).2).
  set (r' := LibGit2.set_refs (<["HEAD" := LibGit2.Symbolic full]> (LibGit2.refs r2)) r2).
  assert (Hout : out = (Resolved tt, mkState (<[p := r']> (world s)) (console s) (calls s))).
  { subst out.
    unfold GitHead.checkoutNewBranch, Git.getRepo, bind, await.
    cbn [World Repository_open repo_getHeadCommit repo_createBranch repo_checkoutBranch
         checkout_base LibGit2Checkout.binding LibGit2.binding world console calls].
    unfold LibGit2.repository_open. rewrite Hr. cbn [world console calls].
    unfold LibGit2.getHeadCommit, LibGit2.read_repo. rewrite Hr, Hhead.
    cbn [world console calls].
    unfold LibGit2Checkout.createBranch, LibGit2.update_repo. rewrite Hr.
    fold full. rewrite Hheads. cbn [world console calls]. fold r1.
    unfold LibGit2Checkout.checkoutBranch, LibGit2.update_repo.
    rewrite lookup_insert_eq.
    assert (Hdwim : LibGit2.dwim r1 b = Resolved (full, c))
      by exact (dwim_new_branch r b c Hplain Hshort Hrefs Htags).
    assert (Hco : LibGit2.Checkout_tree (LibGit2.c_tree c) r1 = (Resolved tt, r2)).
    { rewrite <- Htree. subst r2. by rewrite Checkout_tree_same. }
    rewrite Hdwim, (is_branch_heads b : LibGit2.is_branch full = true).
    unfold LibGit2Checkout.checkout_ref. rewrite Hco. fold r'.
    by rewrite insert_insert_eq. }
  assert (Hrefs2 : LibGit2.refs r2 = <[full := LibGit2.Direct c]> (LibGit2.refs r)).
  { subst r2. by rewrite Checkout_tree_same. }
  rewrite Hout. cbn [fst snd world].
  split; [done|]. split.
  - exists r'. split; [done|]. subst r'. cbn [LibGit2.refs LibGit2.set_refs].
    by rewrite Hrefs2.
  - assert (Hr' : world (mkState (<[p := r']> (world s)) (console s) (calls s)) !! p
                  = Some r') by apply lookup_insert_eq.
    rewrite (getCurrentBranch_run _ p r' Hr').
    rewrite (repository_head_set (LibGit2.refs r2) full c); [f_equal; apply shorthand_heads| | |done].
    + apply is_branch_heads.
    + rewrite Hrefs2. apply lookup_insert_eq.
Qed.

Lemma checkoutNewBranch_switches_witness :
  let out := GitHead.checkoutNewBranch LibGit2Checkout.binding "/fleet/behind" "topic"
               Fleet.start in
  out.1 = Resolved tt
  /\ (Git.getCurrentBranch LibGit2.binding "/fleet/behind" out.2).1 = Resolved "topic".
Proof.
  intros out.
  destruct (checkoutNewBranch_switches Fleet.start "/fleet/behind" "topic" Fleet.behind
              "refs/heads/master" Fleet.initial) as (Hout & _ & Hbranch).
  - by_evaluation.
  - by_evaluation.
  - by_evaluation.
  - by_evaluation.
  - by_evaluation.
  - by_evaluation.
  - by_evaluation.
  - split; [exact Hout|exact Hbranch].
Defined.

(** X22.  On the model, [checkoutNewBranch] never moves a branch that
    exists and never switches when the branch cannot be created: when a
    branch of that name exists, or when HEAD has no commit to start the
    branch from, it is rejected and the disk is as it was. *)
Theorem checkoutNewBranch_fails_unchanged (s : State LibGit2.Disk) p b r :
  world s !! p = Some r ->
  is_Some (LibGit2.refs r !! ("refs/heads/" +:+ b))
  \/ (exists e,
        LibGit2.lookup_resolved (LibGit2.refs r) LibGit2.MAX_NESTING_LEVEL "HEAD"
        = Rejected e) ->
  let out := GitHead.checkoutNewBranch LibGit2Checkout.binding p b s in
  (exists e, out.1 = Rejected e) /\ world out.2 = world s.
Proof.
  intros Hr Hwhy out. subst out.
  unfold GitHead.checkoutNewBranch, Git.getRepo, bind, await.
  cbn [World Repository_open repo_getHeadCommit repo_createBranch repo_checkoutBranch
       checkout_base LibGit2Checkout.binding LibGit2.binding world console calls].
  unfold LibGit2.repository_open. rewrite Hr. cbn [world console calls].
  unfold LibGit2.getHeadCommit, LibGit2.read_repo. rewrite Hr.
  unfold LibGit2Checkout.createBranch, LibGit2.update_repo.
  destruct (LibGit2.lookup_resolved _ _ "HEAD") as [[hn hc]|he];
    cbn [world console calls]; rewrite Hr.
  - destruct Hwhy as [[t Hexists]|[e He]]; [|done].
    rewrite Hexists. cbn [andb fst snd world].
    split; [by eexists|]. exact (insert_id (world s) p r Hr).
  - cbn [fst snd world]. split; [by eexists|]. exact (insert_id (world s) p r Hr).
Qed.

Lemma checkoutNewBranch_fails_unchanged_witness :
  let existing := GitHead.checkoutNewBranch LibGit2Checkout.binding "/fleet/feature"
                    "master" Fleet.start in
  let unborn := GitHead.checkoutNewBranch LibGit2Checkout.binding "/fleet/unborn"
                  "topic" Fleet.start in
  world existing.2 = Fleet.disk /\ world unborn.2 = Fleet.disk.
Proof.
  intros existing unborn. split.
  - apply (checkoutNewBranch_fails_unchanged Fleet.start "/fleet/feature" "master"
             Fleet.feature); [by_evaluation|].
    left. exists (LibGit2.Direct Fleet.upstream). by_evaluation.
  - apply (checkoutNewBranch_fails_unchanged Fleet.start "/fleet/unborn" "topic"
             Fleet.unborn); [by_evaluation|].
    right. exists (NodeGitError GIT_ENOTFOUND). by_evaluation.
Defined.

(** ** The branch verb *)

Section BranchFacts.
Context {W : Type}.

Lemma forEach_log {A} (line : A -> string) xs (s : State W) :
  forEach xs (fun x => log (line x)) s
  = (Resolved tt, mkState (world s) (console s ++ map line xs) (calls s)).
Proof.
  revert s. induction xs as [|x xs IH]; intros s; simpl.
  - rewrite app_nil_r. by destruct s.
  - unfold bind, log at 1. rewrite IH. simpl. by rewrite <- app_assoc.
Qed.
End BranchFacts.

(** X23.  Once the two imports have resolved, the branch verb resolves and
    touches neither the world nor the trace: it prints, for each entry of
    the branch map and in the order of the map, one header with the number
    of repositories on the branch, followed by one line for each of these
    repositories unless the branch is master. *)
Theorem branch_handler_report W getRepos getBranchMap relPath chalk argv
    (s : State W) repos s1 branchMap s2 :
  getRepos (BranchCmd.exclude argv) None s = (Resolved repos, s1) ->
  getBranchMap repos s1 = (Resolved branchMap, s2) ->
  BranchCmd.handler W getRepos getBranchMap relPath chalk argv s
  = (Resolved tt,
     mkState (world s2)
       (console s2
        ++ flat_map
             (fun '(branch, branchRepos) =>
                BranchCmd.header chalk branch branchRepos
                :: (if bool_decide (branch <> "master")
                    then map (BranchCmd.repo_line relPath chalk) branchRepos
                    else []))
             branchMap)
       (calls s2)).
Proof.
  intros H1 H2. unfold BranchCmd.handler.
  rewrite (bind_resolved _ _ _ _ _ H1), (bind_resolved _ _ _ _ _ H2).
  clear H1 H2. revert s2.
  induction branchMap as [|[branch branchRepos] branchMap IH]; intros s2; simpl.
  - rewrite app_nil_r. by destruct s2.
  - unfold bind at 1. unfold bind at 1. unfold log at 1.
    destruct (bool_decide (branch <> "master")).
    + rewrite forEach_log, IH. simpl. by rewrite <- !app_assoc.
    + unfold ret. rewrite IH. simpl. by rewrite <- !app_assoc.
Qed.

Lemma branch_handler_report_witness :
  let plain := {| chalk_green := id; chalk_grey := id; chalk_yellow := id |} in
  console
    (BranchCmd.handler LibGit2.Disk
       (Repos.getRepos LibGit2.binding Fleet.catalog)
       (ReposBranches.getBranchMap LibGit2.binding Fleet.in_order)
       id plain {| BranchCmd.exclude := ["unborn"] |} Fleet.start).2
  = ["4 repos on branch <master>";
     "1 repos on branch <topic>"; "  ↳ /fleet/topic";
     "1 repos on branch <feature>"; "  ↳ /fleet/feature"].
Proof.
  intros plain.
  pose (repos := ["/fleet/behind"; "/fleet/edited"; "/fleet/diverged"; "/fleet/offline";
                  "/fleet/topic"; "/fleet/feature"]).
  rewrite (branch_handler_report LibGit2.Disk
             (Repos.getRepos LibGit2.binding Fleet.catalog)
             (ReposBranches.getBranchMap LibGit2.binding Fleet.in_order)
             id plain {| BranchCmd.exclude := ["unborn"] |} Fleet.start repos Fleet.start
             [("master", ["/fleet/behind"; "/fleet/edited"; "/fleet/diverged";
                          "/fleet/offline"]);
              ("topic", ["/fleet/topic"]); ("feature", ["/fleet/feature"])]
             (mkState Fleet.disk [] (map call_getCurrentBranch repos))).
  - by_evaluation.
  - by_evaluation.
  - by_evaluation.
Defined.

(** ** The commit verb on the model *)

Lemma dispatch_cons {W A} (t : Promise W A) ts (s : State W) :
  dispatch (t :: ts) s
  = ((t s).1 :: (dispatch ts (t s).2).1, (dispatch ts (t s).2).2).
Proof. simpl. destruct (t s) as [r s1]. simpl. by destruct (dispatch ts s1). Qed.

Section CommitBatchFacts.
Import LibGit2.
Implicit Types (s : State Disk) (r : Repository).

Lemma commitAll_post s p message r name c :
  world s !! p = Some r ->
  lookup_resolved (refs r) MAX_NESTING_LEVEL "HEAD" = Resolved (name, c) ->
  exists oid r',
    (Git.commitAll binding p message s).1 = Resolved oid
    /\ world (Git.commitAll binding p message s).2 = <[p := r']> (world s)
    /\ just_committed message r'.
Proof.
  intros Hr Hhead. rewrite (commitAll_run s p message r name c Hr Hhead).
  cbn [fst snd world].
  set (c' := mkCommit _ _ _ _ _). set (r' := set_refs _ _).
  assert (Hhead' : lookup_resolved (refs r') MAX_NESTING_LEVEL "HEAD"
                   = Resolved (name, c'))
    by (eapply lookup_resolved_insert, Hhead).
  exists (CommitId c'), r'. split; [done|]. split; [done|]. split.
  - by exists name, c'.
  - apply status_files_clean. split; [|done].
    by rewrite (head_tree_of_HEAD r' name c' Hhead').
Qed.

Lemma dispatch_commitAll message l :
  NoDup l ->
  forall s,
    (forall p, p ∈ l ->
       exists r name c,
         world s !! p = Some r
         /\ lookup_resolved (refs r) MAX_NESTING_LEVEL "HEAD" = Resolved (name, c)) ->
    let tasks := dispatch (map (fun repo => Git.commitAll binding repo message) l) s in
    (forall e, Rejected e ∉ tasks.1)
    /\ forall p, p ∈ l ->
         exists r', world tasks.2 !! p = Some r' /\ just_committed message r'.
Proof.
  induction 1 as [|p l Hp Hnodup IH]; intros s Hall tasks; subst tasks.
  - split; [intros e He; inversion He|intros p Hp; inversion Hp].
  - cbn [map]. rewrite dispatch_cons. cbn [fst snd].
    destruct (Hall p) as (r & name & c & Hr & Hhead); [left|].
    destruct (commitAll_post s p message r name c Hr Hhead)
      as (oid & r' & Hout & Hworld & Hpost).
    pose proof (commitAll_frames p message s) as Hframe.
    set (s1 := (Git.commitAll binding p message s).2) in *.
    assert (Hrest : forall q, q ∈ l ->
               exists r name c,
                 world s1 !! q = Some r
                 /\ lookup_resolved (refs r) MAX_NESTING_LEVEL "HEAD"
                    = Resolved (name, c)).
    { intros q Hq. rewrite Hframe by (intros ->; done). apply Hall. by right. }
    destruct (IH s1 Hrest) as [Hno Hdone].
    pose proof (dispatch_frames (fun repo => Git.commitAll binding repo message) l
                  (fun q => commitAll_frames q message) s1 p Hp) as Hkept.
    split.
    + intros e He. apply elem_of_cons in He as [He|He]; [congruence|].
      by apply (Hno e).
    + intros q Hq. apply elem_of_cons in Hq as [->|Hq]; [|by apply Hdone].
      exists r'. split; [|done]. etransitivity; [exact Hkept|]. subst s1.
      etransitivity; [exact (f_equal (fun d : Disk => d !! p) Hworld)|].
      apply lookup_insert_eq.
Qed.
End CommitBatchFacts.

(** X24.  On the model, when every repository of the dirty group has a
    commit under HEAD (and is listed once), the commit verb resolves, and
    it leaves each of them committed: [isStatusClean] then resolves with
    true and [getHeadCommitMessage] with the message of the command. *)
Theorem commit_handler_cleans_the_dirty getRepos getStatusGroups settle argv
    (s : State LibGit2.Disk) repos s1 groups s2 :
  getRepos (CommitCmd.exclude argv) (CommitCmd.scope argv) s = (Resolved repos, s1) ->
  getStatusGroups repos s1 = (Resolved groups, s2) ->
  NoDup (Repos.dirty groups) ->
  (forall p, p ∈ Repos.dirty groups ->
     exists r name c,
       world s2 !! p = Some r
       /\ LibGit2.lookup_resolved (LibGit2.refs r) LibGit2.MAX_NESTING_LEVEL "HEAD"
          = Resolved (name, c)) ->
  let out := CommitCmd.handler LibGit2.binding getRepos getStatusGroups settle argv s in
  out.1 = Resolved tt
  /\ forall p, p ∈ Repos.dirty groups ->
       (Git.isStatusClean LibGit2.binding p out.2).1 = Resolved true
       /\ (GitHead.getHeadCommitMessage LibGit2Checkout.binding p out.2).1
          = Resolved (CommitCmd.message argv).
Proof.
  intros H1 H2 Hnodup Hall out. subst out. unfold CommitCmd.handler.
  rewrite (bind_resolved _ _ _ _ _ H1), (bind_resolved _ _ _ _ _ H2).
  destruct (dispatch_commitAll (CommitCmd.message argv) (Repos.dirty groups) Hnodup s2 Hall)
    as [Hno Hdone].
  destruct (batch_then_report LibGit2.binding settle
              (fun repo => Git.commitAll LibGit2.binding repo (CommitCmd.message argv))
              (commitAll_calls (CommitCmd.message argv)) (Repos.dirty groups)
              (CommitCmd.summary (length (Repos.dirty groups)) (CommitCmd.message argv))
              s2 (commitAll_emits LibGit2.binding (CommitCmd.message argv)))
    as (_ & Hworld & _ & _ & Hres).
  destruct (Hres Hno) as [Hout _]. split; [exact Hout|].
  intros p Hp. destruct (Hdone p Hp) as (r' & Hr' & [(name & c & Hhead & Hmsg) Hclean]).
  rewrite <- Hworld in Hr'. split.
  - etransitivity; [exact (f_equal fst (isStatusClean_run _ p r' Hr'))|].
    cbn [fst]. by rewrite Hclean.
  - etransitivity; [exact (getHeadCommitMessage_run _ p r' Hr')|].
    by rewrite Hhead, Hmsg.
Qed.

Lemma commit_handler_cleans_the_dirty_witness :
  let argv := {| CommitCmd.exclude := ["unborn"]; CommitCmd.scope := None;
                 CommitCmd.message := "wip" |} in
  (Git.isStatusClean LibGit2.binding "/fleet/edited" Fleet.start).1 = Resolved false
  /\ (Fleet.commit_cmd argv Fleet.start).1 = Resolved tt
  /\ (Git.isStatusClean LibGit2.binding "/fleet/edited"
        (Fleet.commit_cmd argv Fleet.start).2).1 = Resolved true.
Proof.
  intros argv. split; [by_evaluation|].
  pose (repos := ["/fleet/behind"; "/fleet/edited"; "/fleet/diverged"; "/fleet/offline";
                  "/fleet/topic"; "/fleet/feature"]).
  pose (groups := {| Repos.clean := ["/fleet/behind"; "/fleet/diverged"; "/fleet/offline";
                                     "/fleet/topic"; "/fleet/feature"];
                     Repos.dirty := ["/fleet/edited"] |}).
  pose (s2 := mkState Fleet.disk [] (map call_isStatusClean repos)).
  destruct (commit_handler_cleans_the_dirty
              (Repos.getRepos LibGit2.binding Fleet.catalog)
              (Repos.getStatusGroups LibGit2.binding Fleet.in_order) Fleet.in_order
              argv Fleet.start repos Fleet.start groups s2) as [Hout Hclean].
  - by_evaluation.
  - by_evaluation.
  - apply NoDup_singleton.
  - intros p Hp. apply list_elem_of_singleton in Hp as ->.
    exists Fleet.edited, "refs/heads/master", Fleet.initial.
    split; by_evaluation.
  - split; [exact Hout|]. apply Hclean. left.
Defined.

(** ** The rest of git.js over any binding: a repository that cannot be opened *)

(** X25.  [getHeadCommitMessage], [checkoutBranch] and [checkoutNewBranch]
    open the repository first as well: when the open is rejected they are
    rejected with the same error, and no other call of the binding is
    made. *)
Theorem open_failure_stops_the_rest NC p (s : State (World (checkout_base NC))) e w1 :
  Repository_open (checkout_base NC) p (world s) = (Rejected e, w1) ->
  let stopped {A} (out : result A * State (World (checkout_base NC))) :=
    out = (Rejected e, mkState w1 (console s) (calls s)) in
  stopped (GitHead.getHeadCommitMessage NC p s)
  /\ (forall branchName, stopped (GitHead.checkoutBranch NC p branchName s))
  /\ (forall branchName, stopped (GitHead.checkoutNewBranch NC p branchName s)).
Proof.
  intros Hopen stopped. subst stopped. cbv beta.
  unfold GitHead.getHeadCommitMessage, GitHead.checkoutBranch, GitHead.checkoutNewBranch,
    Git.getRepo, bind, await.
  by rewrite Hopen.
Qed.

Lemma open_failure_stops_the_rest_witness :
  (GitHead.checkoutNewBranch LibGit2Checkout.binding "/fleet/nowhere" "topic"
     Fleet.start).1 = Rejected (NodeGitError GIT_ENOTFOUND).
Proof.
  destruct (open_failure_stops_the_rest LibGit2Checkout.binding "/fleet/nowhere"
              Fleet.start (NodeGitError GIT_ENOTFOUND) Fleet.disk)
    as (_ & _ & Hnew); [by_evaluation|].
  by rewrite Hnew.
Defined.

(** ** sync on the model: which references it merges *)

Section SyncNames.
Import LibGit2.
Implicit Types (s : State Disk) (r : Repository).

(** The reference HEAD resolves to is bound to the commit found. *)
Lemma repository_head_direct r name c :
  repository_head r = Resolved (name, c) -> refs r !! name = Some (Direct c).
Proof.
  unfold repository_head.
  destruct (refs r !! "HEAD") as [[c0|target]|] eqn:Hhead;
    [by intros [= <- <-]| |done].
  destruct (lookup_resolved (refs r) MAX_NESTING_LEVEL target) as [[n c1]|e] eqn:Hres.
  - intros [= <- <-]. by eapply lookup_resolved_direct.
  - by destruct e as [[]| |].
Qed.

Lemma is_remote_heads b : is_remote ("refs/heads/" +:+ b) = false.
Proof. done. Qed.

(** HEAD on the local branch [b]. *)
Lemma head_on_branch r b c :
  refs r !! "HEAD" = Some (Symbolic ("refs/heads/" +:+ b)) ->
  refs r !! ("refs/heads/" +:+ b) = Some (Direct c) ->
  repository_head r = Resolved ("refs/heads/" +:+ b, c).
Proof.
  intros Hhead Hb. unfold repository_head.
  by rewrite Hhead, (lookup_resolved_here _ _ _ _ Hb).
Qed.

(** The short name of a branch finds the branch when no reference of the
    bare name, in "refs/" or among the tags comes first. *)
Lemma current_branch_found r b c :
  b <> "" ->
  refs r !! b = None ->
  refs r !! ("refs/" +:+ b) = None ->
  refs r !! ("refs/tags/" +:+ b) = None ->
  refs r !! ("refs/heads/" +:+ b) = Some (Direct c) ->
  dwim r b = Resolved ("refs/heads/" +:+ b, c).
Proof.
  intros Hne H1 H2 H3 H4. unfold dwim. rewrite (dwim_formats_named b Hne).
  rewrite (dwim_first_skip _ _ _ H1), (dwim_first_skip _ _ _ H2),
    (dwim_first_skip _ _ _ H3).
  by apply dwim_first_here.
Qed.

(** Likewise for "origin/master" and the remote-tracking branch. *)
Lemma origin_master_found r c :
  refs r !! "origin/master" = None ->
  refs r !! "refs/origin/master" = None ->
  refs r !! "refs/tags/origin/master" = None ->
  refs r !! "refs/heads/origin/master" = None ->
  refs r !! "refs/remotes/origin/master" = Some (Direct c) ->
  dwim r "origin/master" = Resolved ("refs/remotes/origin/master", c).
Proof.
  intros H1 H2 H3 H4 H5. unfold dwim.
  rewrite (dwim_formats_named "origin/master") by done.
  rewrite (dwim_first_skip _ _ _ H1).
  rewrite (dwim_first_skip _ _ _
             (H2 : refs r !! ("refs/" +:+ "origin/master") = None)).
  rewrite (dwim_first_skip _ _ _
             (H3 : refs r !! ("refs/tags/" +:+ "origin/master") = None)).
  rewrite (dwim_first_skip _ _ _
             (H4 : refs r !! ("refs/heads/" +:+ "origin/master") = None)).
  exact (dwim_first_here _ _ _ _
           (H5 : refs r !! ("refs/remotes/" +:+ "origin/master") = Some (Direct c))).
Qed.

Lemma origin_master_missing r :
  refs r !! "origin/master" = None ->
  refs r !! "refs/origin/master" = None ->
  refs r !! "refs/tags/origin/master" = None ->
  refs r !! "refs/heads/origin/master" = None ->
  refs r !! "refs/remotes/origin/master" = None ->
  refs r !! "refs/remotes/origin/master/HEAD" = None ->
  dwim r "origin/master" = Rejected (NodeGitError GIT_ENOTFOUND).
Proof.
  intros H1 H2 H3 H4 H5 H6. apply dwim_first_absent. intros candidate Hin.
  rewrite (dwim_formats_named "origin/master") in Hin by done.
  repeat (apply elem_of_cons in Hin as [->|Hin]; [assumption|]).
  inversion Hin.
Qed.

(** After a fetch HEAD is on the branch it was on. *)
Lemma head_on_branch_fetched r b c rems x r1 :
  refs r !! "HEAD" = Some (Symbolic ("refs/heads/" +:+ b)) ->
  refs r !! ("refs/heads/" +:+ b) = Some (Direct c) ->
  fetch_each rems r = (x, r1) ->
  refs r1 !! "HEAD" = Some (Symbolic ("refs/heads/" +:+ b))
  /\ refs r1 !! ("refs/heads/" +:+ b) = Some (Direct c).
Proof.
  intros Hhead Hb Hfetch.
  destruct (fetch_each_local _ _ _ _ Hfetch) as (_ & _ & Hlocal).
  split.
  - by rewrite (Hlocal "HEAD").
  - by rewrite (Hlocal _ (is_remote_heads b)).
Qed.

Lemma is_head_on_branch r b c :
  refs r !! "HEAD" = Some (Symbolic ("refs/heads/" +:+ b)) ->
  refs r !! ("refs/heads/" +:+ b) = Some (Direct c) ->
  is_head r ("refs/heads/" +:+ b) = true.
Proof.
  intros Hhead Hb. unfold is_head.
  rewrite is_branch_heads, (head_on_branch r b c Hhead Hb). simpl.
  by apply bool_decide_eq_true_2.
Qed.
End SyncNames.

(** C4, amended.  On a repository of the model whose HEAD resolves and
    whose remotes can all be fetched, [sync] asks for a fast-forward-only
    merge of the short name of the current branch with "origin/master", on
    the repository as fetched.  Each name is looked up among all the
    references: a name that does not resolve rejects [sync] with the error
    of the lookup; the short name of a local branch is that branch when no
    reference of the bare name, in "refs/" or among the tags exists, and
    "origin/master" is the remote-tracking branch when, besides, no local
    branch "origin/master" exists.  [sync] never writes a merge commit: the
    references it leaves are those of the fetch, except that the reference
    merged into may have moved to the commit of the other, which then has
    the old tip in its history.  When the other tip is already in the
    history of the first [sync] resolves and leaves the repository as
    fetched.  When the two tips have diverged nothing is merged and the
    repository is left as fetched, but no diverged-history error is
    raised: [sync] resolves when the two tips have a common ancestor, and
    rejects with the not-found error of the merge-base lookup when they
    have none. *)
Theorem sync_fast_forwards_or_leaves
    (s : State LibGit2.Disk) p r head_name head_commit r1 :
  world s !! p = Some r ->
  LibGit2.repository_head r = Resolved (head_name, head_commit) ->
  LibGit2.fetch_each (LibGit2.remotes r) r = (Resolved tt, r1) ->
  let out := Git.sync LibGit2.binding p s in
  let merged_into := LibGit2.dwim r1 (LibGit2.shorthand head_name) in
  let merged_from := LibGit2.dwim r1 "origin/master" in
  (exists r2,
      world out.2 = <[p := r2]> (world s)
      /\ (LibGit2.refs r2 = LibGit2.refs r1
          \/ exists to_name to_commit from_name from_commit,
              merged_into = Resolved (to_name, to_commit)
              /\ merged_from = Resolved (from_name, from_commit)
              /\ LibGit2.refs r2
                 = <[to_name := LibGit2.Direct from_commit]> (LibGit2.refs r1)
              /\ to_commit ∈ LibGit2.history from_commit))
  /\ (forall e,
      merged_into = Rejected e ->
      out.1 = Rejected e /\ world out.2 = <[p := r1]> (world s))
  /\ (forall to e,
      merged_into = Resolved to ->
      merged_from = Rejected e ->
      out.1 = Rejected e /\ world out.2 = <[p := r1]> (world s))
  /\ (forall to_name to_commit from_name from_commit,
      merged_into = Resolved (to_name, to_commit) ->
      merged_from = Resolved (from_name, from_commit) ->
      (from_commit ∈ LibGit2.history to_commit ->
       out.1 = Resolved tt /\ world out.2 = <[p := r1]> (world s))
      /\ (to_commit ∉ LibGit2.history from_commit ->
          from_commit ∉ LibGit2.history to_commit ->
          world out.2 = <[p := r1]> (world s)
          /\ (LibGit2.common_ancestors to_commit from_commit <> [] ->
              out.1 = Resolved tt)
          /\ (LibGit2.common_ancestors to_commit from_commit = [] ->
              out.1 = Rejected (NodeGitError GIT_ENOTFOUND))))
  /\ (forall b,
      head_name = "refs/heads/" +:+ b ->
      b <> "" ->
      LibGit2.refs r1 !! b = None ->
      LibGit2.refs r1 !! ("refs/" +:+ b) = None ->
      LibGit2.refs r1 !! ("refs/tags/" +:+ b) = None ->
      merged_into = Resolved (head_name, head_commit))
  /\ (forall c,
      LibGit2.refs r1 !! "origin/master" = None ->
      LibGit2.refs r1 !! "refs/origin/master" = None ->
      LibGit2.refs r1 !! "refs/tags/origin/master" = None ->
      LibGit2.refs r1 !! "refs/heads/origin/master" = None ->
      LibGit2.refs r1 !! "refs/remotes/origin/master" = Some (LibGit2.Direct c) ->
      merged_from = Resolved ("refs/remotes/origin/master", c)).
Proof.
  intros Hr Hhead Hfetch out merged_into merged_from. subst out.
  destruct (LibGit2.merge_branches (LibGit2.shorthand head_name) "origin/master"
              (LibGit2.defaultSignature p (<[p := r1]> (world s)))
              PREFERENCE_FASTFORWARD_ONLY r1) as [x r2] eqn:Hmerge.
  rewrite (sync_run s p r head_name head_commit r1 x r2 Hr Hhead Hfetch Hmerge).
  cbn [fst snd world].
  assert (Hnames :
    (forall b,
        head_name = "refs/heads/" +:+ b ->
        b <> "" ->
        LibGit2.refs r1 !! b = None ->
        LibGit2.refs r1 !! ("refs/" +:+ b) = None ->
        LibGit2.refs r1 !! ("refs/tags/" +:+ b) = None ->
        merged_into = Resolved (head_name, head_commit))
    /\ (forall c,
        LibGit2.refs r1 !! "origin/master" = None ->
        LibGit2.refs r1 !! "refs/origin/master" = None ->
        LibGit2.refs r1 !! "refs/tags/origin/master" = None ->
        LibGit2.refs r1 !! "refs/heads/origin/master" = None ->
        LibGit2.refs r1 !! "refs/remotes/origin/master" = Some (LibGit2.Direct c) ->
        merged_from = Resolved ("refs/remotes/origin/master", c))).
  { split.
    - intros b -> Hne H1 H2 H3. subst merged_into. rewrite shorthand_heads.
      apply current_branch_found; try done.
      destruct (fetch_each_local _ _ _ _ Hfetch) as (_ & _ & Hlocal).
      rewrite (Hlocal _ (is_remote_heads b)).
      by apply repository_head_direct.
    - intros c H1 H2 H3 H4 H5. by apply origin_master_found. }
  destruct Hnames as [Hinto Hfrom_name].
  subst merged_into merged_from.
  destruct (LibGit2.dwim r1 (LibGit2.shorthand head_name))
    as [[to_name to_commit]|e_to] eqn:Hto.
  2:{ unfold LibGit2.merge_branches in Hmerge. rewrite Hto in Hmerge.
      injection Hmerge as <- <-.
      split; [exists r1; split; [done|by left]|].
      split; [by intros e [= <-]|]. split; [done|]. split; [done|]. done. }
  destruct (LibGit2.dwim r1 "origin/master")
    as [[from_name from_commit]|e_from] eqn:Hfrom.
  2:{ rewrite (merge_branches_unresolved_from _ _ _ _ _ _ _ _ Hto Hfrom) in Hmerge.
      injection Hmerge as <- <-.
      split; [exists r1; split; [done|by left]|].
      split; [done|]. split; [by intros to e _ [= <-]|]. split; [done|]. done. }
  rewrite (merge_branches_fastforward_only _ _ _ _ _ _ _ _ Hto Hfrom) in Hmerge.
  split; [|split; [done|split; [done|split; [|done]]]].
  - exists r2. split; [done|].
    destruct (LibGit2.Merge_base to_commit from_commit) as [base|e] eqn:Hbase.
    + destruct (bool_decide (base = from_commit)); [injection Hmerge as <- <-; by left|].
      destruct (bool_decide (base = to_commit)) eqn:Hff;
        [|injection Hmerge as <- <-; by left].
      apply bool_decide_eq_true_1 in Hff. subst base.
      apply Merge_base_common in Hbase as [_ Hancestor].
      apply fast_forward_refs in Hmerge as [[_ Hrefs]|(e & _ & ->)]; [|by left].
      right. by exists to_name, to_commit, from_name, from_commit.
    + injection Hmerge as <- <-. by left.
  - intros to_name' to_commit' from_name' from_commit' [= <- <-] [= <- <-].
    split.
    { intros Hupdated.
      rewrite (Merge_base_descendant _ _ Hupdated), bool_decide_eq_true_2 in Hmerge
        by done.
      by injection Hmerge as <- <-. }
    intros Hto_not Hfrom_not.
    destruct (LibGit2.Merge_base to_commit from_commit) as [base|e] eqn:Hbase.
    + destruct (Merge_base_diverged _ _ _ Hto_not Hfrom_not Hbase) as [Hne_to Hne_from].
      rewrite !bool_decide_eq_false_2 in Hmerge by done.
      injection Hmerge as <- <-. split; [done|]. split; [done|].
      intros Hnil. by rewrite (Merge_base_unrelated _ _ Hnil) in Hbase.
    + injection Hmerge as <- <-. split; [done|]. split.
      * intros Hcommon. destruct (Merge_base_related _ _ Hcommon) as [c Hc]. congruence.
      * intros Hnil. rewrite (Merge_base_unrelated _ _ Hnil) in Hbase.
        unfold LibGit2.not_found in Hbase. congruence.
Qed.

Lemma sync_fast_forwards_or_leaves_witness :
  let out := Git.sync LibGit2.binding "/fleet/diverged" Fleet.start in
  let fetched :=
    LibGit2.set_refs
      (<["refs/remotes/origin/master" := LibGit2.Direct Fleet.upstream]>
         (LibGit2.refs Fleet.diverged))
      Fleet.diverged in
  world out.2 = <["/fleet/diverged" := fetched]> Fleet.disk /\ out.1 = Resolved tt.
Proof.
  intros out fetched.
  destruct (sync_fast_forwards_or_leaves Fleet.start "/fleet/diverged" Fleet.diverged
              "refs/heads/master" Fleet.local fetched)
    as (_ & _ & _ & Hmerge & Hinto & Hfrom).
  - by_evaluation.
  - by_evaluation.
  - by_evaluation.
  - destruct (Hmerge "refs/heads/master" Fleet.local
                "refs/remotes/origin/master" Fleet.upstream)
      as (_ & Hdiverged).
    + apply (Hinto "master"); [reflexivity|done|by_evaluation..].
    + apply Hfrom; by_evaluation.
    + destruct Hdiverged as (Hworld & Hresolved & _); [by_decision|by_decision|].
      split; [exact Hworld|]. apply Hresolved. by_decision.
Defined.

(** C8, as the claim states it, fails on the model.  This repository is
    behind, with a tag named master besides: HEAD is on the branch master,
    origin/master is one commit ahead of it, and yet [sync] leaves the
    current branch where it was.  The short name it passes finds the tag
    first: the tag is what moves to the commit of origin/master. *)
Lemma sync_moves_a_tag_of_the_same_name :
  let tagged :=
    LibGit2.set_refs (<["refs/tags/master" := LibGit2.Direct Fleet.initial]>
                        (LibGit2.refs Fleet.behind)) Fleet.behind in
  let s := mkState (<["/fleet/behind" := tagged]> Fleet.disk) [] [] in
  let out := Git.sync LibGit2.binding "/fleet/behind" s in
  let ref_of (name : string) (d : LibGit2.Disk) :=
    d !! "/fleet/behind" ≫= fun r => LibGit2.refs r !! name in
  (Git.getCurrentBranch LibGit2.binding "/fleet/behind" s).1 = Resolved "master"
  /\ ref_of "refs/heads/master" (world s) = Some (LibGit2.Direct Fleet.initial)
  /\ out.1 = Resolved tt
  /\ ref_of "refs/remotes/origin/master" (world out.2)
     = Some (LibGit2.Direct Fleet.upstream)
  /\ Fleet.initial ∈ LibGit2.history Fleet.upstream
  /\ ref_of "refs/heads/master" (world out.2) = Some (LibGit2.Direct Fleet.initial)
  /\ ref_of "refs/tags/master" (world out.2) = Some (LibGit2.Direct Fleet.upstream).
Proof.
  intros tagged s out ref_of.
  split; [by_evaluation|]. split; [by_evaluation|]. split; [by_evaluation|].
  split; [by_evaluation|]. split; [by_decision|]. split; by_evaluation.
Qed.

(** C8, amended.  [sync] always asks for a merge from the literal name
    "origin/master", whatever the branch HEAD is on.  On a repository of the
    model where HEAD is on a local branch, the remotes can all be fetched,
    and once the fetch is done no reference comes before the branch in the
    lookup of its short name (none of the bare name, in "refs/" or among
    the tags) nor before the remote-tracking branch in the lookup of
    "origin/master" (none of the bare name, in "refs/", among the tags or
    among the local branches): [sync] rejects with the not-found error
    when the remote has no branch master, leaving the repository as
    fetched; otherwise no reference but the current branch can move, and
    only to the commit of refs/remotes/origin/master; when that commit is
    strictly ahead of the current branch, [sync] either moves the branch to
    it or rejects and leaves the repository as fetched, and on a clean
    working tree it moves the branch, the index and the working tree. *)
Theorem sync_merges_from_origin_master
    (s : State LibGit2.Disk) p r b head_commit r1 :
  world s !! p = Some r ->
  LibGit2.refs r !! "HEAD" = Some (LibGit2.Symbolic ("refs/heads/" +:+ b)) ->
  LibGit2.refs r !! ("refs/heads/" +:+ b) = Some (LibGit2.Direct head_commit) ->
  LibGit2.fetch_each (LibGit2.remotes r) r = (Resolved tt, r1) ->
  b <> "" ->
  LibGit2.refs r1 !! b = None ->
  LibGit2.refs r1 !! ("refs/" +:+ b) = None ->
  LibGit2.refs r1 !! ("refs/tags/" +:+ b) = None ->
  LibGit2.refs r1 !! "origin/master" = None ->
  LibGit2.refs r1 !! "refs/origin/master" = None ->
  LibGit2.refs r1 !! "refs/tags/origin/master" = None ->
  LibGit2.refs r1 !! "refs/heads/origin/master" = None ->
  let out := Git.sync LibGit2.binding p s in
  let current := "refs/heads/" +:+ b in
  (LibGit2.refs r1 !! "refs/remotes/origin/master" = None ->
   LibGit2.refs r1 !! "refs/remotes/origin/master/HEAD" = None ->
   out.1 = Rejected (NodeGitError GIT_ENOTFOUND)
   /\ world out.2 = <[p := r1]> (world s))
  /\ (forall from_commit,
      LibGit2.refs r1 !! "refs/remotes/origin/master"
      = Some (LibGit2.Direct from_commit) ->
      (exists r2,
          world out.2 = <[p := r2]> (world s)
          /\ (LibGit2.refs r2 = LibGit2.refs r1
              \/ LibGit2.refs r2
                 = <[current := LibGit2.Direct from_commit]> (LibGit2.refs r1)))
      /\ (head_commit ∈ LibGit2.history from_commit ->
          head_commit <> from_commit ->
          ((out.1 = Resolved tt
            /\ exists r2,
                world out.2 = <[p := r2]> (world s)
                /\ LibGit2.refs r2
                   = <[current := LibGit2.Direct from_commit]> (LibGit2.refs r1))
           \/ ((exists e, out.1 = Rejected e)
               /\ world out.2 = <[p := r1]> (world s)))
          /\ (LibGit2.status_files r1 = [] ->
              out.1 = Resolved tt
              /\ exists r2,
                  world out.2 = <[p := r2]> (world s)
                  /\ LibGit2.refs r2
                     = <[current := LibGit2.Direct from_commit]> (LibGit2.refs r1)
                  /\ LibGit2.workdir r2 = LibGit2.c_tree from_commit
                  /\ LibGit2.index r2 = LibGit2.c_tree from_commit))).
Proof.
  intros Hr Hhead Hbranch Hfetch Hne Hb1 Hb2 Hb3 Ho1 Ho2 Ho3 Ho4 out current.
  subst out.
  destruct (head_on_branch_fetched _ _ _ _ _ _ Hhead Hbranch Hfetch)
    as [Hhead1 Hbranch1].
  pose proof (head_on_branch r b head_commit Hhead Hbranch) as Hon.
  pose proof (is_head_on_branch r1 b head_commit Hhead1 Hbranch1) as Hcurrent.
  pose proof (current_branch_found r1 b head_commit Hne Hb1 Hb2 Hb3 Hbranch1) as Hto.
  rewrite <- (shorthand_heads b) in Hto at 1. fold current in Hto, Hon, Hcurrent.
  destruct (LibGit2.merge_branches (LibGit2.shorthand current) "origin/master"
              (LibGit2.defaultSignature p (<[p := r1]> (world s)))
              PREFERENCE_FASTFORWARD_ONLY r1) as [x r2] eqn:Hmerge.
  rewrite (sync_run s p r current head_commit r1 x r2 Hr Hon Hfetch Hmerge).
  cbn [fst snd world].
  split.
  - intros Ho5 Ho6.
    pose proof (origin_master_missing r1 Ho1 Ho2 Ho3 Ho4 Ho5 Ho6) as Hfrom.
    rewrite (merge_branches_unresolved_from _ _ _ _ _ _ _ _ Hto Hfrom) in Hmerge.
    by injection Hmerge as <- <-.
  - intros from_commit Ho5.
    pose proof (origin_master_found r1 from_commit Ho1 Ho2 Ho3 Ho4 Ho5) as Hfrom.
    rewrite (merge_branches_fastforward_only _ _ _ _ _ _ _ _ Hto Hfrom) in Hmerge.
    split.
    + exists r2. split; [done|].
      destruct (LibGit2.Merge_base head_commit from_commit) as [base|e] eqn:Hbase;
        [|injection Hmerge as <- <-; by left].
      destruct (bool_decide (base = from_commit)); [injection Hmerge as <- <-; by left|].
      destruct (bool_decide (base = head_commit));
        [|injection Hmerge as <- <-; by left].
      apply fast_forward_refs in Hmerge as [[_ Hrefs]|(e & _ & ->)]; [by right|by left].
    + intros Hancestor Hahead.
      rewrite (Merge_base_ancestor _ _ Hancestor) in Hmerge.
      rewrite bool_decide_eq_false_2, bool_decide_eq_true_2 in Hmerge by done.
      unfold LibGit2.fast_forward in Hmerge. rewrite Hcurrent in Hmerge.
      split.
      * unfold LibGit2.Checkout_tree in Hmerge.
        destruct (bool_decide _) in Hmerge; injection Hmerge as <- <-.
        -- left. split; [done|]. by eexists.
        -- right. split; [by eexists|done].
      * intros Hclean. rewrite (Checkout_tree_clean _ _ Hclean) in Hmerge.
        injection Hmerge as <- <-. split; [done|]. by eexists.
Qed.

Lemma sync_merges_from_origin_master_witness :
  let out := Git.sync LibGit2.binding "/fleet/topic" Fleet.start in
  let fetched :=
    LibGit2.set_refs
      (<["refs/remotes/origin/topic" := LibGit2.Direct Fleet.local]>
         (<["refs/remotes/origin/master" := LibGit2.Direct Fleet.upstream]>
            (LibGit2.refs Fleet.topic)))
      Fleet.topic in
  out.1 = Resolved tt
  /\ exists r2,
      world out.2 = <["/fleet/topic" := r2]> Fleet.disk
      /\ LibGit2.refs r2
         = <["refs/heads/topic" := LibGit2.Direct Fleet.upstream]> (LibGit2.refs fetched)
      /\ LibGit2.workdir r2 = LibGit2.c_tree Fleet.upstream.
Proof.
  intros out fetched.
  destruct (sync_merges_from_origin_master Fleet.start "/fleet/topic" Fleet.topic
              "topic" Fleet.initial fetched)
    as [_ Hfound];
    [by_evaluation|by_evaluation|by_evaluation|by_evaluation|done
    |by_evaluation|by_evaluation|by_evaluation|by_evaluation|by_evaluation
    |by_evaluation|by_evaluation|].
  destruct (Hfound Fleet.upstream) as (_ & Hahead); [by_evaluation|].
  destruct Hahead as (_ & Hclean); [by_decision|by_decision|].
  destruct Hclean as (Hout & r2 & Hworld & Hrefs & Hworkdir & _); [by_evaluation|].
  split; [exact Hout|]. exists r2. split; [exact Hworld|]. split; [exact Hrefs|].
  exact Hworkdir.
Defined.
